(** * Ren'Py command-line front end: [renpy/arguments.py]

    A shallow embedding of the two-phase argument parsing and command
    dispatch of [renpy/arguments.py], with the properties of its
    specification stated and proved over it.

    Python dictionaries ([commands], [display], [os.environ],
    [renpy.session], an [argparse.Namespace]) are finite maps with string
    keys; module globals and the process state are threaded explicitly
    through a small state-and-exception monad. *)

From Stdlib Require Import ZArith String Ascii List Lia.
From stdpp Require Import base option list strings pretty gmap.
From Equations Require Import Equations.

Open Scope string_scope.
Open Scope list_scope.

(** ** Python values and strings *)

Module Py.

(** The Python values that occur as attribute values of a namespace, as
    session markers and as option defaults. *)
#[warnings="-register-all"]
Inductive value :=
| None_
| Bool (b : bool)
| Int (z : Z)
| Str (s : string)
| List (l : list value).

(** [bool(v)]: Python truthiness. *)
Definition truthy (v : value) : bool :=
  match v with
  | None_ => false
  | Bool b => b
  | Int z => negb (z =? 0)%Z
  | Str s => negb (String.eqb s "")
  | List l => negb (Nat.eqb (List.length l) 0)
  end.

(** [repr(v)]; a string is taken to hold no quote, backslash or control
    character. *)
Fixpoint repr (v : value) : string :=
  match v with
  | None_ => "None"
  | Bool b => if b then "True" else "False"
  | Int z => pretty z
  | Str s => "'" +:+ s +:+ "'"
  | List l => "[" +:+ String.concat ", " (map repr l) +:+ "]"
  end.

(** [str(v)], which is what [format] inserts. *)
Definition str (v : value) : string :=
  match v with
  | Str s => s
  | _ => repr v
  end.

(** [v == s] for a string literal [s]. *)
Definition eq_str (v : value) (s : string) : bool :=
  match v with
  | Str t => String.eqb t s
  | _ => false
  end.

(** [d.get(k, default)] on a dictionary. *)
Definition dict_get {V} (d : gmap string V) (k : string) (default : V) : V :=
  match d !! k with
  | Some v => v
  | None => default
  end.

(** [c.lower()] on one character; tokens are taken over 8-bit
    characters and only the ASCII letters have a case. *)
Definition lower_ascii (c : ascii) : ascii :=
  let n := nat_of_ascii c in
  if (65 <=? n)%nat && (n <=? 90)%nat then ascii_of_nat (n + 32) else c.

(** [s.lower()]. *)
Fixpoint lower (s : string) : string :=
  match s with
  | EmptyString => EmptyString
  | String c r => String (lower_ascii c) (lower r)
  end.

(** [s.startswith(p)]. *)
Definition startswith (s p : string) : bool := String.prefix p s.

(** [c in s] for a character [c]. *)
Fixpoint contains (c : ascii) (s : string) : bool :=
  match s with
  | EmptyString => false
  | String d r => Ascii.eqb c d || contains c r
  end.

(** [s.split(c, 1)] when [c] occurs in [s]: the text before the first
    [c] and the text after it. *)
Fixpoint split1 (c : ascii) (s : string) : string * string :=
  match s with
  | EmptyString => (EmptyString, EmptyString)
  | String d r =>
      if Ascii.eqb c d then (EmptyString, r)
      else let '(a, b) := split1 c r in (String d a, b)
  end.

(** [s.replace(a, b)] for single characters. *)
Fixpoint replace (a b : ascii) (s : string) : string :=
  match s with
  | EmptyString => EmptyString
  | String d r => String (if Ascii.eqb a d then b else d) (replace a b r)
  end.

(** [s.lstrip(c)]. *)
Fixpoint lstrip (c : ascii) (s : string) : string :=
  match s with
  | String d r => if Ascii.eqb c d then lstrip c r else s
  | EmptyString => EmptyString
  end.

Definition is_digit (c : ascii) : bool :=
  let n := nat_of_ascii c in (48 <=? n)%nat && (n <=? 57)%nat.

Definition is_space (c : ascii) : bool :=
  let n := nat_of_ascii c in
  ((9 <=? n)%nat && (n <=? 13)%nat) || ((28 <=? n)%nat && (n <=? 32)%nat).

Fixpoint all_digits (s : string) : bool :=
  match s with
  | EmptyString => true
  | String c r => is_digit c && all_digits r
  end.

(** The digits of an integer literal, with single underscores allowed
    between digits; [seen] tells whether the previous character was a
    digit. *)
Fixpoint digits (s : string) (acc : Z) (seen : bool) : option Z :=
  match s with
  | EmptyString => if seen then Some acc else None
  | String c r =>
      if is_digit c
      then digits r (10 * acc + Z.of_nat (nat_of_ascii c - 48))%Z true
      else if Ascii.eqb c "_" && seen then digits r acc false
      else None
  end.

Fixpoint lstrip_space (s : string) : string :=
  match s with
  | String c r => if is_space c then lstrip_space r else s
  | EmptyString => EmptyString
  end.

Fixpoint rstrip_space (s : string) : string :=
  match s with
  | EmptyString => EmptyString
  | String c r =>
      match rstrip_space r with
      | EmptyString => if is_space c then EmptyString else String c EmptyString
      | r' => String c r'
      end
  end.

(** [int(s)] on a string: surrounding white space, an optional sign,
    decimal digits, all taken in ASCII (Python also reads the decimal
    digits and blanks of other scripts).  [None] stands for
    [ValueError]. *)
Definition int_of_string (s : string) : option Z :=
  match rstrip_space (lstrip_space s) with
  | String "-" r => Z.opp <$> digits r 0 false
  | String "+" r => digits r 0 false
  | r => digits r 0 false
  end.

(** The exceptions that leave the functions of this file. *)
Inductive exn :=
| SystemExit (status : Z) (message : string)
| KeyError (key : string)
| AttributeError (name : string)
| TypeError
| IndexError.

(** The outcome of a call that touches no global state. *)
Inductive result (A : Type) :=
| Return (a : A)
| Raise (e : exn).
Arguments Return {A} a.
Arguments Raise {A} e.

#[global] Instance result_ret : MRet result := @Return.
#[global] Instance result_fmap : FMap result := fun A B f r =>
  match r with
  | Return a => Return (f a)
  | Raise e => Raise e
  end.
#[global] Instance result_bind : MBind result := fun A B k r =>
  match r with
  | Return a => k a
  | Raise e => Raise e
  end.

End Py.

(** [argparse.Namespace]: a bag of attributes. *)
Abbreviation Namespace := (gmap string Py.value).

(** ** The standard library's [argparse]

    [renpy.arguments.ArgumentParser] extends [argparse.ArgumentParser] and
    leaves the parsing itself to it.  The library is not part of the
    repository; this module follows CPython 3.11's [argparse.py] for the
    features the grammar of [renpy/arguments.py] can reach: positionals
    with [nargs] absent or ["?"], [store], [store_true], [help] and
    [version] options, [--opt=value], unambiguous prefixes of long
    options, clustered single-dash flags, [--], and the conversions [str]
    and [int].  Help text, argument groups' titles and metavars only shape
    printed text and are left out; string defaults all belong to
    [str]-typed actions, whose late conversion is the identity. *)

Module argparse.
Import Py.

Inductive nargs_spec :=
| One        (* nargs=None: exactly one argument string *)
| Optional   (* nargs="?" *)
| Zero.      (* nargs=0, the flags *)

Inductive conv := to_str | to_int.

Inductive action_class := store | store_true | help | version.

(** An [argparse.Action].  [default = None] stands for [SUPPRESS]. *)
Record Action := {
  option_strings : list string;
  dest : string;
  cls : action_class;
  nargs : nargs_spec;
  type : conv;
  default : option value;
  required : bool }.

(** Keyword arguments of [add_argument] ([help] and [metavar] only
    concern the help text). *)
Inductive kwarg :=
| kw_action (a : action_class)
| kw_dest (d : string)
| kw_default (v : value)
| kw_nargs (n : nargs_spec)
| kw_type (c : conv).

Definition get_action (kws : list kwarg) : action_class :=
  List.hd store (omap (fun k => match k with kw_action a => Some a | _ => None end) kws).
Definition get_dest (kws : list kwarg) : option string :=
  List.head (omap (fun k => match k with kw_dest d => Some d | _ => None end) kws).
Definition get_default (kws : list kwarg) : option value :=
  List.head (omap (fun k => match k with kw_default v => Some v | _ => None end) kws).
Definition get_nargs (kws : list kwarg) : nargs_spec :=
  List.hd One (omap (fun k => match k with kw_nargs n => Some n | _ => None end) kws).
Definition get_type (kws : list kwarg) : conv :=
  List.hd to_str (omap (fun k => match k with kw_type c => Some c | _ => None end) kws).

(** [len(s) > 1 and s[1] in prefix_chars]. *)
Definition is_long (s : string) : bool :=
  match s with
  | String _ (String "-" _) => true
  | _ => false
  end.

(** [_get_optional_kwargs]: the destination inferred from the first long
    option string, or else from the first option string. *)
Definition infer_dest (flags : list string) : string :=
  let dest_option_string :=
    match List.filter is_long flags with
    | l :: _ => l
    | [] => List.hd "" flags
    end in
  replace "-" "_" (lstrip "-" dest_option_string).

(** A single name that does not start with [-] declares a positional. *)
Definition is_positional (flags : list string) : bool :=
  match flags with
  | [] => true
  | [name] => negb (startswith name "-")
  | _ => false
  end.

(** The action a call of [add_argument] creates. *)
Definition make_action (flags : list string) (kws : list kwarg) : Action :=
  if is_positional flags then
    {| option_strings := [];
       dest := List.hd "" flags;
       cls := get_action kws;
       nargs := get_nargs kws;
       type := get_type kws;
       default := Some (from_option id None_ (get_default kws));
       required := match get_nargs kws with Optional => false | _ => true end |}
  else
    {| option_strings := flags;
       dest := from_option id (infer_dest flags) (get_dest kws);
       cls := get_action kws;
       nargs := match get_action kws with store => get_nargs kws | _ => Zero end;
       type := get_type kws;
       default :=
         match get_action kws with
         | store => Some (from_option id None_ (get_default kws))
         | store_true => Some (from_option id (Bool false) (get_default kws))
         | help | version => None
         end;
       required := false |}.

Definition add_argument (flags : list string) (kws : list kwarg)
    (actions : list Action) : list Action :=
  actions ++ [make_action flags kws].

(** [self._option_string_actions], in insertion order. *)
Definition option_string_actions (actions : list Action) : list (string * Action) :=
  flat_map (fun a => map (fun o => (o, a)) (option_strings a)) actions.

Definition lookup_option (table : list (string * Action)) (s : string) : option Action :=
  snd <$> List.find (fun e => String.eqb (fst e) s) table.

(** [self._get_positional_actions()]. *)
Definition get_positional_actions (actions : list Action) : list Action :=
  List.filter (fun a => match option_strings a with [] => true | _ => false end) actions.

(** [_get_action_name]. *)
Definition action_name (a : Action) : string :=
  match option_strings a with
  | [] => dest a
  | l => String.concat "/" l
  end.

(** [parser.error(message)]: usage and message on standard error,
    exit status 2. *)
Definition error {A} (message : string) : result A :=
  Raise (SystemExit 2 message).

(** An [ArgumentError] caught by [parse_known_args] and handed to
    [error]. *)
Definition argument_error {A} (a : Action) (message : string) : result A :=
  error ("argument " +:+ action_name a +:+ ": " +:+ message).

(** [repr(s)] of a string. *)
Definition repr (s : string) : string := Py.repr (Str s).


(** *** Telling options from arguments: [_parse_optional] *)

(** [_negative_number_matcher]: [-] and digits, or [-], digits, a dot
    and digits; a final newline is allowed by the dollar sign. *)
Fixpoint chomp (s : string) : string :=
  match s with
  | String c EmptyString => if Ascii.eqb c "010" then EmptyString else s
  | String c r => String c (chomp r)
  | EmptyString => EmptyString
  end.

Definition negative_number_like (s : string) : bool :=
  match chomp s with
  | String "-" r =>
      (negb (String.eqb r "") && all_digits r)
      || (contains "." r
          && let '(a, b) := split1 "." r in
             all_digits a && negb (String.eqb b "") && all_digits b)
  | _ => false
  end.

(** [self._has_negative_number_optionals]. *)
Definition has_negative_number_optionals (table : list (string * Action)) : bool :=
  existsb (fun e => negative_number_like (fst e)) table.

(** The interpretation of one argument string as an option: the action
    ([None] when the parser has no such option), the option string and
    the argument given with it, if any. *)
Definition option_tuple : Type := option Action * string * option string.

(** [_get_option_tuples]: the options an abbreviated or clustered
    argument string can stand for. *)
Definition get_option_tuples (table : list (string * Action)) (option_string : string)
    : list option_tuple :=
  if is_long option_string then
    let '(option_prefix, explicit_arg) :=
      if contains "=" option_string
      then let '(a, b) := split1 "=" option_string in (a, Some b)
      else (option_string, None) in
    omap (fun e =>
            if startswith (fst e) option_prefix
            then Some (Some (snd e), fst e, explicit_arg) else None) table
  else
    let option_prefix := option_string in
    let short_option_prefix := substring 0 2 option_string in
    let short_explicit_arg := substring 2 (String.length option_string - 2) option_string in
    omap (fun e =>
            if String.eqb (fst e) short_option_prefix
            then Some (Some (snd e), fst e, Some short_explicit_arg)
            else if startswith (fst e) option_prefix
            then Some (Some (snd e), fst e, None)
            else None) table.

(** [_parse_optional]: [Return None] for a positional argument. *)
Definition parse_optional (table : list (string * Action)) (arg_string : string)
    : result (option option_tuple) :=
  match arg_string with
  | EmptyString => Return None
  | String c r =>
      if negb (Ascii.eqb c "-") then Return None
      else
        match lookup_option table arg_string with
        | Some action => Return (Some (Some action, arg_string, None))
        | None =>
            if String.eqb r "" then Return None
            else
              let with_equals :=
                if contains "=" arg_string then
                  let '(option_string, explicit_arg) := split1 "=" arg_string in
                  (fun action => (Some action, option_string, Some explicit_arg))
                    <$> lookup_option table option_string
                else None in
              match with_equals with
              | Some t => Return (Some t)
              | None =>
                  match get_option_tuples table arg_string with
                  | (_ :: _ :: _) as option_tuples =>
                      error ("ambiguous option: " +:+ arg_string +:+ " could match "
                             +:+ String.concat ", " (map (fun t => snd (fst t)) option_tuples))
                  | [t] => Return (Some t)
                  | [] =>
                      if negative_number_like arg_string
                         && negb (has_negative_number_optionals table)
                      then Return None
                      else if contains " " arg_string then Return None
                      else Return (Some (None, arg_string, None))
                  end
              end
        end
  end.

(** The letters of [arg_strings_pattern]. *)
Inductive pat :=
| A          (* an argument *)
| O          (* an option *)
| Dash.      (* the separator [--] *)

Definition pat_eqb (x y : pat) : bool :=
  match x, y with
  | A, A | O, O | Dash, Dash => true
  | _, _ => false
  end.

(** An argument string with what the first loop of [_parse_known_args]
    found it to be. *)
Inductive kind :=
| Argument
| Separator
| Option_ (t : option_tuple).

Record token := { text : string; what : kind }.

Definition letter (tok : token) : pat :=
  match what tok with
  | Argument => A
  | Separator => Dash
  | Option_ _ => O
  end.

(** [arg_strings_pattern] and [arg_strings], from an index on. *)
Definition pattern (toks : list token) : list pat := map letter toks.
Definition texts (toks : list token) : list string := map text toks.

(** Every string after [--] is an argument. *)
Definition after_separator (arg_strings : list string) : list token :=
  map (fun s => {| text := s; what := Argument |}) arg_strings.

Fixpoint classify (table : list (string * Action)) (arg_strings : list string)
    : result (list token) :=
  match arg_strings with
  | [] => Return []
  | s :: r =>
      if String.eqb s "--"
      then Return ({| text := s; what := Separator |} :: after_separator r)
      else
        o ← parse_optional table s;
        toks ← classify table r;
        Return ({| text := s;
                   what := match o with None => Argument | Some t => Option_ t end |}
                  :: toks)
  end.

(** *** Matching [nargs] patterns

    The regular expressions of [_get_nargs_pattern] are sequences of
    starred, optional and plain letters inside groups; [re_match] is
    [re.match] on them, greedy with backtracking, and returns the length
    of every group. *)

Inductive re :=
| Star (c : pat)
| Maybe (c : pat)
| Lit (c : pat)
| Close.                (* the end of a group *)

Fixpoint re_match (items : list re) (s : list pat) (len : nat) : option (list nat) :=
  match items with
  | [] => Some []
  | Close :: items' => cons len <$> re_match items' s 0
  | Lit c :: items' =>
      match s with
      | x :: s' => if pat_eqb x c then re_match items' s' (S len) else None
      | [] => None
      end
  | Maybe c :: items' =>
      let skip := re_match items' s len in
      match s with
      | x :: s' =>
          if pat_eqb x c
          then match re_match items' s' (S len) with
               | Some r => Some r
               | None => skip
               end
          else skip
      | [] => skip
      end
  | Star c :: items' =>
      (fix star (s : list pat) (len : nat) {struct s} : option (list nat) :=
         match s with
         | x :: s' =>
             if pat_eqb x c
             then match star s' (S len) with
                  | Some r => Some r
                  | None => re_match items' s len
                  end
             else re_match items' s len
         | [] => re_match items' s len
         end) s len
  end.

(** [_get_nargs_pattern]: an option allows no [--] among its arguments. *)
Definition get_nargs_pattern (a : Action) : list re :=
  let nargs_pattern :=
    match nargs a with
    | One => [Star Dash; Lit A; Star Dash; Close]
    | Optional => [Star Dash; Maybe A; Star Dash; Close]
    | Zero => [Star Dash; Star Dash; Close]
    end in
  match option_strings a with
  | [] => nargs_pattern
  | _ => List.filter (fun i => match i with
                               | Star Dash | Lit Dash | Maybe Dash => false
                               | _ => true
                               end) nargs_pattern
  end.

(** [_match_argument]: how many argument strings the action takes from
    the front of the pattern. *)
Definition match_argument (a : Action) (arg_strings_pattern : list pat) : result nat :=
  match re_match (get_nargs_pattern a) arg_strings_pattern 0 with
  | Some (n :: _) => Return n
  | _ =>
      argument_error a
        match nargs a with
        | One => "expected one argument"
        | Optional => "expected at most one argument"
        | Zero => "expected 0 arguments"
        end
  end.

(** [_match_arguments_partial]: the longest prefix of the positionals
    that matches, with the length matched by each. *)
Fixpoint match_arguments_partial_from (n : nat) (actions : list Action)
    (arg_strings_pattern : list pat) : list nat :=
  match n with
  | 0 => []
  | S n' =>
      match re_match (flat_map get_nargs_pattern (take n actions)) arg_strings_pattern 0 with
      | Some result => result
      | None => match_arguments_partial_from n' actions arg_strings_pattern
      end
  end.

Definition match_arguments_partial (actions : list Action)
    (arg_strings_pattern : list pat) : list nat :=
  match_arguments_partial_from (List.length actions) actions arg_strings_pattern.

(** *** Converting and storing values *)

(** [_get_value]: the conversion named by [type]. *)
Definition get_value (a : Action) (arg_string : string) : result value :=
  match type a with
  | to_str => Return (Str arg_string)
  | to_int =>
      match int_of_string arg_string with
      | Some z => Return (Int z)
      | None => argument_error a ("invalid int value: " +:+ repr arg_string)
      end
  end.

(** [arg_strings.remove("--")]: the first occurrence, if any. *)
Fixpoint remove_separator (arg_strings : list string) : list string :=
  match arg_strings with
  | [] => []
  | s :: r => if String.eqb s "--" then r else s :: remove_separator r
  end.

(** [_get_values]; [Return None] for [SUPPRESS]. *)
Definition get_values (a : Action) (arg_strings : list string) : result (option value) :=
  match remove_separator arg_strings, nargs a with
  | [], Optional =>
      match option_strings a, default a with
      | [], Some (Str s) => Some <$> get_value a s
      | [], d => Return d
      | _ :: _, _ => Return (Some None_)       (* [action.const] *)
      end
  | [arg_string], (One | Optional) => Some <$> get_value a arg_string
  | l, _ => vs ← mapM (get_value a) l; Return (Some (List vs))
  end.

(** The [__call__] of the action classes. *)
Definition call (a : Action) (namespace : Namespace) (values : value) : result Namespace :=
  match cls a with
  | store => Return (<[dest a := values]> namespace)
  | store_true => Return (<[dest a := Bool true]> namespace)
  | help | version => Raise (SystemExit 0 "")
  end.

(** [take_action] of [_parse_known_args]. *)
Definition take_action (a : Action) (argument_strings : list string)
    (namespace : Namespace) : result Namespace :=
  argument_values ← get_values a argument_strings;
  match argument_values with
  | Some v => call a namespace v
  | None => Return namespace
  end.

Fixpoint take_actions (action_tuples : list (Action * list string))
    (namespace : Namespace) : result Namespace :=
  match action_tuples with
  | [] => Return namespace
  | (a, args) :: r => ns ← take_action a args namespace; take_actions r ns
  end.

(** *** [consume_optional] *)

(** The branch without an explicit argument: the option takes its
    arguments from the strings that follow it.  With the action tuples
    comes the number of following strings taken, [stop - start]. *)
Definition without_explicit_arg (following : list token) (action : Action)
    : result (list (Action * list string) * nat) :=
  arg_count ← match_argument action (pattern following);
  Return ([(action, take arg_count (texts following))], arg_count).

(** The branch with an explicit argument.  A single-dash flag that takes
    no argument hands a non-empty rest of the string on to the flag named
    by its first character, and so on. *)
Fixpoint with_explicit_arg (table : list (string * Action)) (following : list token)
    (action : Action) (option_string explicit_arg : string) {struct explicit_arg}
    : result (list (Action * list string) * nat) :=
  arg_count ← match_argument action [A];
  match explicit_arg with
  | String c new_explicit_arg =>
      if Nat.eqb arg_count 0 && negb (is_long option_string) then
        let option_string' := substring 0 1 option_string +:+ String c EmptyString in
        match lookup_option table option_string' with
        | Some action' =>
            '(action_tuples, taken) ←
               match new_explicit_arg with
               | EmptyString => without_explicit_arg following action'
               | _ => with_explicit_arg table following action' option_string'
                        new_explicit_arg
               end;
            Return ((action, []) :: action_tuples, taken)
        | None => argument_error action ("ignored explicit argument " +:+ repr explicit_arg)
        end
      else if Nat.eqb arg_count 1 then Return ([(action, [explicit_arg])], 0)
      else argument_error action ("ignored explicit argument " +:+ repr explicit_arg)
  | EmptyString =>
      if Nat.eqb arg_count 1 then Return ([(action, [explicit_arg])], 0)
      else argument_error action ("ignored explicit argument " +:+ repr explicit_arg)
  end.

(** [consume_optional] at an option with interpretation [t], followed by
    [following]: the new namespace and extras, and the number of strings
    consumed after the option. *)
Definition consume_optional (table : list (string * Action)) (arg_string : string)
    (t : option_tuple) (following : list token)
    (namespace : Namespace) (extras : list string)
    : result (Namespace * list string * nat) :=
  match t with
  | (None, _, _) => Return (namespace, extras ++ [arg_string], 0)
  | (Some action, option_string, explicit_arg) =>
      '(action_tuples, taken) ←
         match explicit_arg with
         | Some e => with_explicit_arg table following action option_string e
         | None => without_explicit_arg following action
         end;
      ns ← take_actions action_tuples namespace;
      Return (ns, extras, taken)
  end.

(** *** [consume_positionals] *)

Fixpoint take_positionals (matched : list (Action * nat)) (arg_strings : list string)
    (namespace : Namespace) : result Namespace :=
  match matched with
  | [] => Return namespace
  | (a, arg_count) :: r =>
      ns ← take_action a (take arg_count arg_strings) namespace;
      take_positionals r (drop arg_count arg_strings) ns
  end.

(** [consume_positionals] on the strings from the current index on: the
    new namespace, the number of strings consumed and the positionals
    that are left. *)
Definition consume_positionals (positionals : list Action) (toks : list token)
    (namespace : Namespace) : result (Namespace * nat * list Action) :=
  let arg_counts := match_arguments_partial positionals (pattern toks) in
  ns ← take_positionals (zip positionals arg_counts) (texts toks) namespace;
  Return (ns, sum_list arg_counts, drop (List.length arg_counts) positionals).

(** *** The main loop of [_parse_known_args] *)

(** The variables of the loop; [remaining] is [arg_strings] from
    [start_index] on. *)
Record loop_state := {
  remaining : list token;
  positionals : list Action;
  namespace : Namespace;
  extras : list string }.

Definition is_option (tok : token) : bool :=
  match what tok with
  | Option_ _ => true
  | _ => false
  end.

(** The strings before the next option, and the strings from it on. *)
Fixpoint until_option (toks : list token) : list token * list token :=
  match toks with
  | [] => ([], [])
  | tok :: r =>
      if is_option tok then ([], toks)
      else let '(before, rest) := until_option r in (tok :: before, rest)
  end.

Inductive step_result :=
| Exit                      (* [start_index > max_option_string_index] *)
| Next (st : loop_state)
| Fail (e : exn).

(** The option at the head of [toks] is consumed. *)
Definition step_optional (table : list (string * Action)) (toks : list token)
    (positionals : list Action) (namespace : Namespace) (extras : list string)
    : step_result :=
  match toks with
  | {| text := s; what := Option_ t |} :: following =>
      match consume_optional table s t following namespace extras with
      | Return (ns, ex, taken) =>
          Next {| remaining := drop taken following; positionals := positionals;
                  namespace := ns; extras := ex |}
      | Raise e => Fail e
      end
  | _ => Fail IndexError
  end.

(** One round of [while start_index <= max_option_string_index]. *)
Definition step (table : list (string * Action)) (st : loop_state) : step_result :=
  if negb (existsb is_option (remaining st)) then Exit
  else
    match remaining st with
    | tok :: _ =>
        if is_option tok
        then step_optional table (remaining st) (positionals st) (namespace st) (extras st)
        else
          match consume_positionals (positionals st) (remaining st) (namespace st) with
          | Return (ns, consumed, positionals') =>
              if Nat.ltb 0 consumed
              then Next {| remaining := drop consumed (remaining st);
                           positionals := positionals';
                           namespace := ns; extras := extras st |}
              else
                let '(before, rest) := until_option (remaining st) in
                step_optional table rest positionals' ns (extras st ++ texts before)
          | Raise e => Fail e
          end
    | [] => Exit
    end.

(** The loop itself; every round consumes at least one string. *)
Equations? parse_loop (table : list (string * Action)) (st : loop_state)
    : result loop_state by wf (List.length (remaining st)) lt :=
  parse_loop table st with Logic.inspect (step table st) := {
    | exist _ Exit _ := Return st
    | exist _ (Fail e) _ := Raise e
    | exist _ (Next st') _ := parse_loop table st' }.
Proof.
  assert (Hopt : forall toks pos ns ex st1,
             step_optional table toks pos ns ex = Next st1 ->
             List.length (remaining st1) < List.length toks).
  { intros toks pos ns ex st1. unfold step_optional.
    destruct toks as [|[s [| |t]] following]; try discriminate.
    destruct (consume_optional table s t following ns ex) as [[[ns1 ex1] taken]|];
      try discriminate.
    intros [= <-]. cbn. rewrite length_drop. lia. }
  assert (Huntil : forall toks before rest,
             until_option toks = (before, rest) ->
             List.length rest <= List.length toks).
  { induction toks as [|tok r IH]; cbn; intros before rest.
    - intros [= <- <-]. cbn. lia.
    - destruct (is_option tok).
      + intros [= <- <-]. cbn. lia.
      + destruct (until_option r) as [b1 r1]. intros [= <- <-].
        specialize (IH _ _ eq_refl). lia. }
  revert e. unfold step.
  destruct (negb (existsb is_option (remaining st))); try discriminate.
  destruct (remaining st) as [|tok r] eqn:Hrem; try discriminate.
  destruct (is_option tok).
  - intros H. apply Hopt in H. exact H.
  - destruct (consume_positionals _ _ _) as [[[ns1 consumed] pos1]|]; try discriminate.
    destruct (Nat.ltb 0 consumed) eqn:Hc.
    + intros [= <-]. cbn. apply Nat.ltb_lt in Hc.
      rewrite length_drop. cbn. lia.
    + destruct (until_option (tok :: r)) as [before rest] eqn:Hu.
      intros H. apply Hopt in H. apply Huntil in Hu. cbn in Hu. cbn. lia.
Qed.

(** *** [parse_known_args] *)

(** Every destination starts with the default of the first action that
    declares it. *)
Definition add_defaults (actions : list Action) (namespace : Namespace) : Namespace :=
  foldl (fun ns a =>
           match ns !! dest a, default a with
           | None, Some v => <[dest a := v]> ns
           | _, _ => ns
           end) namespace actions.

(** [argparse.ArgumentParser.parse_known_args(self, args)]: the namespace
    and the strings no action took. *)
Definition parse_known_args (actions : list Action) (args : list string)
    : result (Namespace * list string) :=
  let table := option_string_actions actions in
  toks ← classify table args;
  st ← parse_loop table {| remaining := toks;
                           positionals := get_positional_actions actions;
                           namespace := add_defaults actions ∅;
                           extras := [] |};
  '(ns, consumed, unseen) ←
     consume_positionals (positionals st) (remaining st) (namespace st);
  let extras := extras st ++ texts (drop consumed (remaining st)) in
  match List.filter required unseen with
  | [] => Return (ns, extras)
  | required_actions =>
      error ("the following arguments are required: "
             +:+ String.concat ", " (map action_name required_actions))
  end.

End argparse.

(** ** The process state and the monad of [renpy/arguments.py] *)

(** A reference to a function object stored in [commands]: the handlers
    this file defines, [renpy.lint.lint], and any other callable passed to
    [register_command]. *)
Inductive function :=
| Run
| Lint
| Compile
| Rmpersistent
| Quit
| Callable (name : string).

(** The globals the file reads and writes.  [warp_spec] keeps every value
    assigned to [renpy.warp.warp_spec], the latest first, so that the
    assignments can be counted; the current value is its head. *)
Record state := {
  argv : list string;                      (* sys.argv *)
  environ : gmap string string;            (* os.environ *)
  session : gmap string Py.value;          (* renpy.session *)
  game_args : Namespace;                   (* renpy.game.args *)
  commands : gmap string function;         (* commands *)
  display : gmap string bool;              (* display *)
  epic_arguments : option (list string);   (* epic_arguments *)
  warp_spec : list Py.value;               (* renpy.warp.warp_spec *)
  config_profile : bool;                   (* renpy.config.profile *)
  config_debug_image_cache : bool;         (* renpy.config.debug_image_cache *)
  persistent_unlinked : bool;              (* unlink_persistent() was called *)
  should_save_persistent : bool }.         (* renpy.persistent.should_save_persistent *)

Definition set_argv (v : list string) (st : state) : state :=
  {| argv := v; environ := environ st; session := session st;
     game_args := game_args st; commands := commands st; display := display st;
     epic_arguments := epic_arguments st; warp_spec := warp_spec st;
     config_profile := config_profile st;
     config_debug_image_cache := config_debug_image_cache st;
     persistent_unlinked := persistent_unlinked st;
     should_save_persistent := should_save_persistent st |}.

Definition set_environ (v : gmap string string) (st : state) : state :=
  {| argv := argv st; environ := v; session := session st;
     game_args := game_args st; commands := commands st; display := display st;
     epic_arguments := epic_arguments st; warp_spec := warp_spec st;
     config_profile := config_profile st;
     config_debug_image_cache := config_debug_image_cache st;
     persistent_unlinked := persistent_unlinked st;
     should_save_persistent := should_save_persistent st |}.

Definition set_session (v : gmap string Py.value) (st : state) : state :=
  {| argv := argv st; environ := environ st; session := v;
     game_args := game_args st; commands := commands st; display := display st;
     epic_arguments := epic_arguments st; warp_spec := warp_spec st;
     config_profile := config_profile st;
     config_debug_image_cache := config_debug_image_cache st;
     persistent_unlinked := persistent_unlinked st;
     should_save_persistent := should_save_persistent st |}.

Definition set_game_args (v : Namespace) (st : state) : state :=
  {| argv := argv st; environ := environ st; session := session st;
     game_args := v; commands := commands st; display := display st;
     epic_arguments := epic_arguments st; warp_spec := warp_spec st;
     config_profile := config_profile st;
     config_debug_image_cache := config_debug_image_cache st;
     persistent_unlinked := persistent_unlinked st;
     should_save_persistent := should_save_persistent st |}.

Definition set_commands (v : gmap string function) (st : state) : state :=
  {| argv := argv st; environ := environ st; session := session st;
     game_args := game_args st; commands := v; display := display st;
     epic_arguments := epic_arguments st; warp_spec := warp_spec st;
     config_profile := config_profile st;
     config_debug_image_cache := config_debug_image_cache st;
     persistent_unlinked := persistent_unlinked st;
     should_save_persistent := should_save_persistent st |}.

Definition set_display (v : gmap string bool) (st : state) : state :=
  {| argv := argv st; environ := environ st; session := session st;
     game_args := game_args st; commands := commands st; display := v;
     epic_arguments := epic_arguments st; warp_spec := warp_spec st;
     config_profile := config_profile st;
     config_debug_image_cache := config_debug_image_cache st;
     persistent_unlinked := persistent_unlinked st;
     should_save_persistent := should_save_persistent st |}.

Definition set_epic_arguments (v : option (list string)) (st : state) : state :=
  {| argv := argv st; environ := environ st; session := session st;
     game_args := game_args st; commands := commands st; display := display st;
     epic_arguments := v; warp_spec := warp_spec st;
     config_profile := config_profile st;
     config_debug_image_cache := config_debug_image_cache st;
     persistent_unlinked := persistent_unlinked st;
     should_save_persistent := should_save_persistent st |}.

Definition set_warp_spec (v : list Py.value) (st : state) : state :=
  {| argv := argv st; environ := environ st; session := session st;
     game_args := game_args st; commands := commands st; display := display st;
     epic_arguments := epic_arguments st; warp_spec := v;
     config_profile := config_profile st;
     config_debug_image_cache := config_debug_image_cache st;
     persistent_unlinked := persistent_unlinked st;
     should_save_persistent := should_save_persistent st |}.

Definition set_config_profile (v : bool) (st : state) : state :=
  {| argv := argv st; environ := environ st; session := session st;
     game_args := game_args st; commands := commands st; display := display st;
     epic_arguments := epic_arguments st; warp_spec := warp_spec st;
     config_profile := v;
     config_debug_image_cache := config_debug_image_cache st;
     persistent_unlinked := persistent_unlinked st;
     should_save_persistent := should_save_persistent st |}.

Definition set_config_debug_image_cache (v : bool) (st : state) : state :=
  {| argv := argv st; environ := environ st; session := session st;
     game_args := game_args st; commands := commands st; display := display st;
     epic_arguments := epic_arguments st; warp_spec := warp_spec st;
     config_profile := config_profile st;
     config_debug_image_cache := v;
     persistent_unlinked := persistent_unlinked st;
     should_save_persistent := should_save_persistent st |}.

Definition set_persistent (unlinked save : bool) (st : state) : state :=
  {| argv := argv st; environ := environ st; session := session st;
     game_args := game_args st; commands := commands st; display := display st;
     epic_arguments := epic_arguments st; warp_spec := warp_spec st;
     config_profile := config_profile st;
     config_debug_image_cache := config_debug_image_cache st;
     persistent_unlinked := unlinked;
     should_save_persistent := save |}.

(** What a call leaves behind: a value or an exception, and the state. *)
Inductive outcome (A : Type) :=
| Done (a : A) (st : state)
| Raised (e : Py.exn) (st : state).
Arguments Done {A} a st.
Arguments Raised {A} e st.

Definition M (A : Type) : Type := state -> outcome A.

#[global] Instance M_ret : MRet M := fun A a st => Done a st.
#[global] Instance M_bind : MBind M := fun A B k m st =>
  match m st with
  | Done a st' => k a st'
  | Raised e st' => Raised e st'
  end.

Definition gets {A} (f : state -> A) : M A := fun st => Done (f st) st.
Definition modify (f : state -> state) : M unit := fun st => Done tt (f st).
Definition raise {A} (e : Py.exn) : M A := fun st => Raised e st.

(** A call into the library, which touches no global of this file. *)
Definition lift {A} (r : Py.result A) : M A :=
  match r with
  | Py.Return a => mret a
  | Py.Raise e => raise e
  end.

(** [namespace.name]. *)
Definition getattr (namespace : Namespace) (name : string) : M Py.value :=
  match namespace !! name with
  | Some v => mret v
  | None => raise (Py.AttributeError name)
  end.

(** [d.get(k)] for a key of any type, on a dictionary whose keys are
    strings: a list cannot be hashed. *)
Definition dict_lookup {V} (d : gmap string V) (k : Py.value) : M (option V) :=
  match k with
  | Py.Str name => mret (d !! name)
  | Py.List _ => raise Py.TypeError
  | _ => mret None
  end.

(** [d[k]]. *)
Definition dict_item {V} (d : gmap string V) (k : Py.value) : M V :=
  found ← dict_lookup d k;
  match found with
  | Some v => mret v
  | None => raise (Py.KeyError (Py.str k))
  end.

(** ** [renpy/arguments.py] *)

(** Commands that force compile to be set. *)
Definition compile_commands : gset string :=
  {["compile"; "add_from"; "merge_strings"]}.

(** [v in compile_commands]: a list cannot be hashed. *)
Definition in_compile_commands (v : Py.value) : M bool :=
  match v with
  | Py.Str s => mret (bool_decide (s ∈ compile_commands))
  | Py.List _ => raise Py.TypeError
  | _ => mret false
  end.

(** The class [ArgumentParser(argparse.ArgumentParser)]. *)
Module ArgumentParser.
Import argparse.

(** The actions declared so far and [self.group]: [None] while
    [self.group is self], else the command the argument group of the
    second pass is titled after. *)
Record t := {
  actions : list Action;
  group : option Py.value }.

(** [add_argument]: to the parser itself or to its current group, which
    registers the action with the parser all the same. *)
Definition add_argument (flags : list string) (kws : list kwarg) (self : t) : t :=
  match group self with
  | None =>
      {| actions := argparse.add_argument flags kws (actions self); group := None |}
  | Some g =>
      {| actions := argparse.add_argument flags kws (actions self); group := Some g |}
  end.

(** [__init__(self, second_pass=True, description=None,
    require_command=True)].  The inherited [__init__] it calls first
    names the program after [sys.argv[0]], which fails with [IndexError]
    on an empty [sys.argv]; the name itself, the description and the
    sorted command names only appear in the help text. *)
Definition init (second_pass : bool) (description : option string)
    (require_command : bool) : M t :=
  argv ← gets argv;
  match argv with
  | [] => raise Py.IndexError
  | _prog :: _ =>
  let self := {| actions := []; group := None |} in
  let self :=
    if require_command then
      let self := add_argument ["basedir"] [] self in
      add_argument ["command"] [] self
    else
      let self := add_argument ["basedir"]
                    [kw_default (Py.Str ""); kw_nargs Optional] self in
      add_argument ["command"] [kw_nargs Optional; kw_default (Py.Str "run")] self in
  let self := add_argument ["--savedir"] [kw_dest "savedir"; kw_default Py.None_] self in
  let self := add_argument ["--trace"]
                [kw_dest "trace"; kw_action store; kw_default (Py.Int 0);
                 kw_type to_int] self in
  let self := add_argument ["--version"] [kw_action version] self in
  let self := add_argument ["--compile"] [kw_action store_true; kw_dest "compile"] self in
  let self := add_argument ["--compile-python"]
                [kw_action store_true; kw_dest "compile_python"] self in
  let self := add_argument ["--keep-orphan-rpyc"] [kw_action store_true] self in
  let self := add_argument ["--lint"] [kw_action store_true; kw_dest "lint"] self in
  let self := add_argument ["--errors-in-editor"] [kw_action store_true] self in
  let self := add_argument ["--safe-mode"]
                [kw_dest "safe_mode"; kw_action store_true;
                 kw_default (Py.Bool false)] self in
  let self := add_argument ["--warp"] [kw_dest "warp"; kw_default Py.None_] self in
  (* dump = self.add_argument_group("JSON dump arguments", ...) *)
  let dump := actions self in
  let dump := argparse.add_argument ["--json-dump"] [kw_action store] dump in
  let dump := argparse.add_argument ["--json-dump-private"]
                [kw_action store_true; kw_default (Py.Bool false)] dump in
  let dump := argparse.add_argument ["--json-dump-common"]
                [kw_action store_true; kw_default (Py.Bool false)] dump in
  let self := {| actions := dump; group := group self |} in
  if second_pass then
    let self := add_argument ["-h"; "--help"] [kw_action help] self in
    args ← gets game_args;
    command ← getattr args "command";
    mret {| actions := actions self; group := Some command |}
  else mret self
  end.

(** [parse_known_args(self)]: the library's parse of [sys.argv[1:]],
    then the three rules on the compile flag. *)
Definition parse_known_args (self : t) : M (Namespace * list string) :=
  argv ← gets argv;
  '(args, rest) ← lift (argparse.parse_known_args (actions self) (tail argv));
  session ← gets session;
  let args :=
    if Py.truthy (Py.dict_get session "_reload" (Py.Bool false))
    then <["compile" := Py.Bool false]> args else args in
  command ← getattr args "command";
  forced ← in_compile_commands command;
  let args := if forced : bool then <["compile" := Py.Bool true]> args else args in
  let args :=
    if Py.truthy (Py.dict_get session "compile" (Py.Bool false))
    then <["compile" := Py.Bool true]> args else args in
  mret (args, rest).

(** [error(self, message)], inherited. *)
Definition error {A} (self : t) (message : string) : M A :=
  lift (argparse.error message).

(** [parse_args(self)], inherited: it calls [self.parse_known_args] and
    refuses strings that were left over. *)
Definition parse_args (self : t) : M Namespace :=
  '(args, argv) ← parse_known_args self;
  match argv with
  | [] => mret args
  | _ => error self ("unrecognized arguments: " +:+ String.concat " " argv)
  end.

End ArgumentParser.

(** Used to report that a command takes no arguments. *)
Definition takes_no_arguments (description : option string) : M unit :=
  ap ← ArgumentParser.init true description true;
  _ ← ArgumentParser.parse_args ap;
  mret tt.

(** The default command, that (when called) leads to normal game startup. *)
Definition run : M bool :=
  ap ← ArgumentParser.init true (Some "Runs the current project normally.") false;
  let ap := ArgumentParser.add_argument ["--profile-display"]
              [argparse.kw_dest "profile_display"; argparse.kw_action argparse.store_true;
               argparse.kw_default (Py.Bool false)] ap in
  let ap := ArgumentParser.add_argument ["--debug-image-cache"]
              [argparse.kw_dest "debug_image_cache"; argparse.kw_action argparse.store_true;
               argparse.kw_default (Py.Bool false)] ap in
  args ← ArgumentParser.parse_args ap;
  _ ← modify (set_game_args args);
  warp ← getattr args "warp";
  session ← gets session;
  _ ← (if Py.truthy warp && negb (Py.truthy (Py.dict_get session "_warped" (Py.Bool false)))
       then
         _ ← modify (set_session (<["_warped" := Py.Bool true]> session));
         history ← gets warp_spec;
         modify (set_warp_spec (warp :: history))
       else mret tt);
  profile_display ← getattr args "profile_display";
  _ ← (if Py.truthy profile_display then modify (set_config_profile true) else mret tt);
  debug_image_cache ← getattr args "debug_image_cache";
  _ ← (if Py.truthy debug_image_cache
       then modify (set_config_debug_image_cache true) else mret tt);
  mret true.

(** This command forces the game script to be recompiled. *)
Definition compile : M bool :=
  _ ← takes_no_arguments (Some "Recompiles the game script.");
  mret false.

(** This command is used to quit without doing anything. *)
Definition quit : M bool :=
  _ ← takes_no_arguments (Some "Recompiles the game script.");
  mret false.

(** This command is used to delete the persistent data. *)
Definition rmpersistent : M bool :=
  _ ← takes_no_arguments (Some "Deletes the persistent data.");
  _ ← modify (set_persistent true false);
  mret false.

(** [register_command(name, function, uses_display=False)]. *)
Definition register_command (name : string) (f : function) (uses_display : bool)
    : M unit :=
  _ ← modify (fun st => set_commands (<[name := f]> (commands st)) st);
  modify (fun st => set_display (<[name := uses_display]> (display st)) st).

(** [clean_epic_arguments()]. *)
Definition clean_epic_arguments : M unit :=
  argv ← gets argv;
  if existsb (fun i => Py.startswith (Py.lower i) "-epicapp=") (tail argv) then
    _ ← modify (set_epic_arguments (Some (tail argv)));
    match argv with
    | argv0 :: _ => modify (set_argv [argv0])
    | [] => raise Py.IndexError
    end
  else mret tt.

(** [clean_macos_arguments()]. *)
Definition clean_macos_arguments : M unit :=
  argv ← gets argv;
  if existsb (fun i => Py.startswith (Py.lower i) "-psn") (tail argv) then
    match argv with
    | argv0 :: _ => modify (set_argv [argv0])
    | [] => raise Py.IndexError
    end
  else mret tt.

(** Called during bootstrap to perform an initial parse of the arguments,
    ignoring unknown arguments. Returns the parsed arguments, and a list of
    unknown arguments.

    So says the docstring; the body ends with [return args], and the list
    bound to [_rest] goes nowhere. *)
Definition bootstrap : M Namespace :=
  _ ← clean_epic_arguments;
  _ ← clean_macos_arguments;
  ap ← ArgumentParser.init false None false;
  '(args, _rest) ← ArgumentParser.parse_known_args ap;
  command ← getattr args "command";
  let args := if Py.eq_str command "lint" then <["lint" := Py.Bool true]> args else args in
  mret args.

(** Called before init, to set up argument parsing. *)
Definition pre_init : M unit :=
  _ ← register_command "run" Run true;
  _ ← register_command "lint" Lint false;
  _ ← register_command "compile" Compile false;
  _ ← register_command "rmpersistent" Rmpersistent false;
  register_command "quit" Quit false.

(** [os.environ.setdefault(key, value)]. *)
Definition setdefault (key value : string) (environ : gmap string string)
    : gmap string string :=
  match environ !! key with
  | Some _ => environ
  | None => <[key := value]> environ
  end.

(** The command [post_init] looks up: [renpy.game.args.command], or
    ["lint"] when that is ["run"] and the lint flag is set. *)
Definition effective_command : M Py.value :=
  args ← gets game_args;
  command ← getattr args "command";
  if Py.eq_str command "run" then
    lint ← getattr args "lint";
    mret (if Py.truthy lint then Py.Str "lint" else command)
  else mret command.

(** [os.environ.setdefault] for the two driver variables. *)
Definition dummy_drivers (st : state) : state :=
  set_environ
    (setdefault "SDL_VIDEODRIVER" "dummy"
       (setdefault "SDL_AUDIODRIVER" "dummy" (environ st))) st.

Section Dispatch.

(** [f()] for a function object [f] stored in [commands]. *)
Variable call : function -> M bool.

(** Called after init, but before the game starts. This parses a command
    and its arguments. It then runs the command function, and returns
    True if execution should continue and False otherwise. *)
Definition post_init : M bool :=
  command ← effective_command;
  commands ← gets commands;
  registered ← dict_lookup commands command;
  match registered with
  | None =>
      ap ← ArgumentParser.init true None true;
      ArgumentParser.error ap ("Command " +:+ Py.str command +:+ " is unknown.")
  | Some f =>
      display ← gets display;
      uses_display ← dict_item display command;
      _ ← (if uses_display : bool then mret tt else modify dummy_drivers);
      call f
  end.

End Dispatch.

(** The state in which [post_init] calls the function registered under
    [name]: the driver variables get their defaults when [display[name]]
    is false. *)
Definition headless (name : string) (st : state) : state :=
  match display st !! name with
  | Some false => dummy_drivers st
  | _ => st
  end.

(** The functions behind the function objects: the handlers of this file,
    and [external] for [renpy.lint.lint] and for any callable registered
    from elsewhere. *)
Definition call_function (external : function -> M bool) (f : function) : M bool :=
  match f with
  | Run => run
  | Compile => compile
  | Rmpersistent => rmpersistent
  | Quit => quit
  | Lint | Callable _ => external f
  end.

(** The first two statements of [bootstrap]. *)
Definition sanitize : M unit :=
  _ ← clean_epic_arguments;
  clean_macos_arguments.

(** A sequence of [register_command] calls. *)
Fixpoint register_commands (calls : list (string * function * bool)) : M unit :=
  match calls with
  | [] => mret tt
  | (name, f, uses_display) :: r =>
      _ ← register_command name f uses_display;
      register_commands r
  end.

(** The run handler called once per argument vector, as on every reload
    of one session. *)
Fixpoint run_each (argvs : list (list string)) : M unit :=
  match argvs with
  | [] => mret tt
  | argv :: r =>
      _ ← modify (set_argv argv);
      _ ← run;
      run_each r
  end.

(** The state a call ends in. *)
Definition final {A} (o : outcome A) : state :=
  match o with
  | Done _ st => st
  | Raised _ st => st
  end.

(** The number of strings after it that an option read as [t] takes,
    given the strings that follow it: what [consume_optional] advances
    by, apart from the option itself. *)
Definition option_arity (table : list (string * argparse.Action))
    (t : argparse.option_tuple) (following : list argparse.token) : Py.result nat :=
  match t with
  | (None, _, _) => Py.Return 0
  | (Some action, option_string, explicit_arg) =>
      '(_, taken) ←
         match explicit_arg with
         | Some e => argparse.with_explicit_arg table following action option_string e
         | None => argparse.without_explicit_arg following action
         end;
      Py.Return taken
  end.

(** No string is left for the positionals: every one is an option, or
    one of the strings the option before it takes, or a final [--].
    [skip] counts the strings the last option still takes. *)
Fixpoint option_groups (table : list (string * argparse.Action)) (skip : nat)
    (toks : list argparse.token) : bool :=
  match toks with
  | [] => true
  | tok :: following =>
      match skip with
      | S skip' => option_groups table skip' following
      | 0 =>
          match argparse.what tok with
          | argparse.Option_ t =>
              match option_arity table t following with
              | Py.Return taken => option_groups table taken following
              | Py.Raise _ => false
              end
          | argparse.Separator =>
              match following with
              | [] => true
              | _ :: _ => false
              end
          | argparse.Argument => false
          end
      end
  end.

(** The tokens hold no positional argument for the parser [ap]. *)
Definition no_positionals (ap : ArgumentParser.t) (tokens : list string) : bool :=
  let table := argparse.option_string_actions (ArgumentParser.actions ap) in
  match argparse.classify table tokens with
  | Py.Return toks => option_groups table 0 toks
  | Py.Raise _ => false
  end.

(** [renpy.session.get("_warped", False)], as a truth value. *)
Definition warped (st : state) : bool :=
  Py.truthy (Py.dict_get (session st) "_warped" (Py.Bool false)).

(** What one call can do to the warp specification: leave it and the
    session alone, or, with the marker unset, assign it once and set the
    marker. *)
Inductive warp_step (st st' : state) : Prop :=
| warp_kept :
    warp_spec st' = warp_spec st ->
    session st' = session st ->
    warp_step st st'
| warp_assigned (w : Py.value) :
    warped st = false ->
    warp_spec st' = w :: warp_spec st ->
    session st' = <["_warped" := Py.Bool true]> (session st) ->
    warp_step st st'.

(** A computation that, from any state, makes at most one [warp_step]. *)
Definition warp_safe {A} (m : M A) : Prop :=
  forall st, warp_step st (final (m st)).

(** The attributes the parser of the bootstrap pass declares, with their
    defaults. *)
Definition first_pass_defaults : Namespace :=
  list_to_map
    [("basedir", Py.Str ""); ("command", Py.Str "run"); ("savedir", Py.None_);
     ("trace", Py.Int 0); ("compile", Py.Bool false);
     ("compile_python", Py.Bool false); ("keep_orphan_rpyc", Py.Bool false);
     ("lint", Py.Bool false); ("errors_in_editor", Py.Bool false);
     ("safe_mode", Py.Bool false); ("warp", Py.None_); ("json_dump", Py.None_);
     ("json_dump_private", Py.Bool false); ("json_dump_common", Py.Bool false)].

(** Some token after the program name starts, in lower case, with
    [marker]. *)
Definition has_marker (marker : string) (argv : list string) : Prop :=
  Exists (fun i => Py.startswith (Py.lower i) marker = true) (tail argv).

(** The state in which the module is first entered: [commands] and
    [display] are empty, [epic_arguments] is [None], and nothing has been
    parsed or assigned yet. *)
Definition startup (argv : list string) (environ : gmap string string)
    (session : gmap string Py.value) : state :=
  {| argv := argv; environ := environ; session := session;
     game_args := ∅; commands := ∅; display := ∅;
     epic_arguments := None; warp_spec := [];
     config_profile := false; config_debug_image_cache := false;
     persistent_unlinked := false; should_save_persistent := true |}.

(** A computation that leaves the observation [f] of the state as it
    was, whether it returns or raises. *)
Definition preserves {A B} (f : state -> B) (m : M A) : Prop :=
  forall st, f (final (m st)) = f st.

(** The parser [run] builds before it parses: the second-pass parser with
    optional positionals, and the two options of the run command. *)
Definition run_parser : M ArgumentParser.t :=
  ap ← ArgumentParser.init true (Some "Runs the current project normally.") false;
  let ap := ArgumentParser.add_argument ["--profile-display"]
              [argparse.kw_dest "profile_display"; argparse.kw_action argparse.store_true;
               argparse.kw_default (Py.Bool false)] ap in
  let ap := ArgumentParser.add_argument ["--debug-image-cache"]
              [argparse.kw_dest "debug_image_cache"; argparse.kw_action argparse.store_true;
               argparse.kw_default (Py.Bool false)] ap in
  mret ap.

(** Every attribute of [ns] is an attribute of [ns'], with whatever
    value. *)
Definition extends (ns ns' : Namespace) : Prop :=
  forall name, is_Some (ns !! name) -> is_Some (ns' !! name).

(** * Properties *)

(** Closes an equation between closed terms by evaluation, without
    writing the normal form of a finite map into the proof. *)
Ltac evaluate :=
  match goal with
  | |- _ = ?y => vm_cast_no_check (@eq_refl _ y)
  end.

(** Unfolds the operations of the monad. *)
Ltac run_monad :=
  cbv [mbind mret M_bind M_ret gets modify raise lift getattr
       dict_lookup dict_item] in *.

(** ** The sanitizer *)

Lemma has_marker_existsb marker argv :
  has_marker marker argv <->
  existsb (fun i => Py.startswith (Py.lower i) marker) (tail argv) = true.
Proof.
  unfold has_marker. rewrite Stdlib.Lists.List.Exists_exists, existsb_exists. reflexivity.
Qed.

Lemma no_marker_existsb marker argv :
  ~ has_marker marker argv ->
  existsb (fun i => Py.startswith (Py.lower i) marker) (tail argv) = false.
Proof.
  rewrite has_marker_existsb. apply not_true_is_false.
Qed.

(** C4, as amended.  With [program_name :: tokens] as the raw vector: a
    foreign-launcher token leaves just the program name and keeps
    [tokens] in [epic_arguments]; a quarantine token without any
    foreign-launcher token leaves just the program name and writes
    nothing else; without either marker the state is unchanged. *)
Theorem sanitize_cases (st : state) (program_name : string) (tokens : list string) :
  argv st = program_name :: tokens ->
  (has_marker "-epicapp=" (argv st) ->
     sanitize st
     = Done tt (set_argv [program_name] (set_epic_arguments (Some tokens) st)))
  /\ (has_marker "-psn" (argv st) -> ~ has_marker "-epicapp=" (argv st) ->
        sanitize st = Done tt (set_argv [program_name] st))
  /\ (~ has_marker "-epicapp=" (argv st) -> ~ has_marker "-psn" (argv st) ->
        sanitize st = Done tt st).
Proof.
  intros Hargv. unfold sanitize, clean_epic_arguments, clean_macos_arguments.
  run_monad. rewrite Hargv. repeat split.
  - intros He. apply has_marker_existsb in He. rewrite He. reflexivity.
  - intros Hp He. apply has_marker_existsb in Hp. apply no_marker_existsb in He.
    rewrite He, Hargv, Hp. reflexivity.
  - intros He Hp. apply no_marker_existsb in He. apply no_marker_existsb in Hp.
    rewrite He, Hargv, Hp. reflexivity.
Qed.

Lemma sanitize_cases_witness :
  let quarantined := startup ["renpy"; "game"; "-psn_0_12345"] ∅ ∅ in
  let launched := startup ["renpy"; "-AUTH_LOGIN=x"; "-EpicApp=demo"] ∅ ∅ in
  let plain := startup ["renpy"; "game"; "run"] ∅ ∅ in
  (sanitize quarantined = Done tt (set_argv ["renpy"] quarantined)
   /\ epic_arguments (final (sanitize quarantined)) = None)
  /\ (argv (final (sanitize launched)) = ["renpy"]
      /\ epic_arguments (final (sanitize launched))
         = Some ["-AUTH_LOGIN=x"; "-EpicApp=demo"])
  /\ sanitize plain = Done tt plain.
Proof.
  intros quarantined launched plain.
  assert (Hyes : forall marker argv,
             existsb (fun i => Py.startswith (Py.lower i) marker) (tail argv) = true ->
             has_marker marker argv).
  { intros marker argv. apply has_marker_existsb. }
  assert (Hno : forall marker argv,
             existsb (fun i => Py.startswith (Py.lower i) marker) (tail argv) = false ->
             ~ has_marker marker argv).
  { intros marker argv H. rewrite has_marker_existsb, H. discriminate. }
  split; [|split].
  - pose proof (sanitize_cases quarantined "renpy" ["game"; "-psn_0_12345"] eq_refl)
      as (_ & H & _).
    rewrite H; [split; reflexivity|apply Hyes; reflexivity|apply Hno; reflexivity].
  - pose proof (sanitize_cases launched "renpy" ["-AUTH_LOGIN=x"; "-EpicApp=demo"]
                  eq_refl) as (H & _).
    rewrite H; [split; reflexivity|apply Hyes; reflexivity].
  - pose proof (sanitize_cases plain "renpy" ["game"; "run"] eq_refl) as (_ & _ & H).
    apply H; apply Hno; reflexivity.
Defined.

(** C4 as stated fails when both markers occur: the quarantine token is
    there, and the tail is kept in [epic_arguments] all the same. *)
Lemma sanitize_quarantine_counterexample :
  let st := startup ["renpy"; "-EpicApp=demo"; "-psn_0_12345"] ∅ ∅ in
  ~ (has_marker "-psn" (argv st) ->
     exists st', sanitize st = Done tt st'
                 /\ argv st' = ["renpy"]
                 /\ epic_arguments st' = epic_arguments st).
Proof.
  intros st H.
  destruct H as (st' & Hs & _ & Hepic).
  { apply has_marker_existsb. reflexivity. }
  vm_compute in Hs. injection Hs as <-. discriminate Hepic.
Qed.

(** ** The command registry *)

Lemma register_command_done name f uses_display st :
  register_command name f uses_display st
  = Done tt (set_display (<[name := uses_display]> (display st))
               (set_commands (<[name := f]> (commands st)) st)).
Proof. reflexivity. Qed.

Lemma same_keys_lookup (st : state) (name : string) :
  dom (commands st) = dom (display st) ->
  is_Some (commands st !! name) -> is_Some (display st !! name).
Proof.
  intros Hdom Hc. apply elem_of_dom. rewrite <- Hdom. apply elem_of_dom, Hc.
Qed.

(** C9.  [register_command] writes [commands] and [display] under the
    same name, so a sequence of registrations keeps their key sets equal,
    and every name found in [commands] afterwards is found in [display]. *)
Theorem register_commands_same_keys (calls : list (string * function * bool))
    (st : state) :
  dom (commands st) = dom (display st) ->
  exists st', register_commands calls st = Done tt st'
              /\ dom (commands st') = dom (display st')
              /\ forall name, is_Some (commands st' !! name) ->
                              is_Some (display st' !! name).
Proof.
  revert st. induction calls as [|[[name f] uses_display] calls IH]; intros st Hdom.
  - exists st. split; [reflexivity|]. split; [exact Hdom|].
    intros name. apply same_keys_lookup, Hdom.
  - cbn [register_commands]. unfold mbind, M_bind at 1.
    rewrite register_command_done. apply IH. cbn.
    rewrite !dom_insert_L, Hdom. reflexivity.
Qed.

Lemma register_commands_same_keys_witness :
  exists st', pre_init (startup ["renpy"] ∅ ∅) = Done tt st'
              /\ dom (commands st') = dom (display st')
              /\ is_Some (display st' !! "rmpersistent").
Proof.
  destruct (register_commands_same_keys
              [("run", Run, true); ("lint", Lint, false); ("compile", Compile, false);
               ("rmpersistent", Rmpersistent, false); ("quit", Quit, false)]
              (startup ["renpy"] ∅ ∅)) as (st' & Hrun & Hdom & Hlook).
  { reflexivity. }
  exists st'. split; [exact Hrun|]. split; [exact Hdom|].
  apply Hlook. apply (f_equal final) in Hrun.
  change (final (Done tt st')) with st' in Hrun. rewrite <- Hrun.
  vm_compute. eexists. reflexivity.
Defined.

(** ** Dispatch *)

Lemma effective_command_attr st v :
  effective_command st = Done v st ->
  exists command, game_args st !! "command" = Some command.
Proof.
  unfold effective_command. run_monad.
  destruct (game_args st !! "command") as [command|]; [eauto | discriminate].
Qed.

Lemma init_no_program second_pass description require_command st :
  argv st = [] ->
  ArgumentParser.init second_pass description require_command st
  = Raised Py.IndexError st.
Proof. intros H. unfold ArgumentParser.init. run_monad. rewrite H. reflexivity. Qed.

Lemma init_second_pass st description require_command command :
  argv st <> [] ->
  game_args st !! "command" = Some command ->
  exists ap, ArgumentParser.init true description require_command st = Done ap st.
Proof.
  intros Hargv H. unfold ArgumentParser.init. run_monad.
  destruct (argv st); [contradiction|]. rewrite H. eauto.
Qed.

(** C1.  When the effective command name is not a key of [commands],
    [post_init] leaves through [ArgumentParser().error]: exit status 2,
    state untouched, whatever calling a registered function would do.
    The parser whose [error] is called can only be built when [sys.argv]
    holds a program name. *)
Theorem post_init_unknown_command (call : function -> M bool) (st : state)
    (name : string) :
  argv st <> [] ->
  effective_command st = Done (Py.Str name) st ->
  commands st !! name = None ->
  post_init call st
  = Raised (Py.SystemExit 2 ("Command " +:+ name +:+ " is unknown.")) st.
Proof.
  intros Hargv Heff Hnone.
  destruct (effective_command_attr _ _ Heff) as [command Hcommand].
  destruct (init_second_pass st None true command Hargv Hcommand) as [ap Hap].
  unfold post_init. run_monad. rewrite Heff, Hnone, Hap. reflexivity.
Qed.

Lemma post_init_unknown_command_witness :
  let st := set_game_args {["command" := Py.Str "zork"]}
              (final (pre_init (startup ["renpy"; "game"; "zork"] ∅ ∅))) in
  post_init (call_function (fun _ => mret true)) st
  = Raised (Py.SystemExit 2 "Command zork is unknown.") st.
Proof.
  intros st.
  apply (post_init_unknown_command (call_function (fun _ => mret true)) st "zork");
    [discriminate|reflexivity|reflexivity].
Defined.

Lemma effective_command_run_lint st lint :
  game_args st !! "command" = Some (Py.Str "run") ->
  game_args st !! "lint" = Some lint ->
  Py.truthy lint = true ->
  effective_command st = Done (Py.Str "lint") st.
Proof.
  intros Hc Hl Ht. unfold effective_command. run_monad.
  rewrite Hc. cbn. rewrite Hl, Ht. reflexivity.
Qed.

(** What [post_init] does for a registered command: the driver defaults
    when the command does not use the display, then the call. *)
Lemma post_init_registered (call : function -> M bool) (st : state)
    (name : string) (f : function) (uses_display : bool) :
  effective_command st = Done (Py.Str name) st ->
  commands st !! name = Some f ->
  display st !! name = Some uses_display ->
  post_init call st = call f (headless name st).
Proof.
  intros Heff Hf Hd. unfold post_init, headless. run_monad.
  rewrite Heff, Hf, Hd. destruct uses_display; reflexivity.
Qed.

(** C5.  With [command = "run"] and the lint flag set, [post_init] calls
    the function registered under ["lint"], whatever is registered under
    ["run"]. *)
Theorem post_init_run_lint (call : function -> M bool) (st : state)
    (lint : Py.value) (f : function) :
  game_args st !! "command" = Some (Py.Str "run") ->
  game_args st !! "lint" = Some lint ->
  Py.truthy lint = true ->
  commands st !! "lint" = Some f ->
  dom (commands st) = dom (display st) ->
  post_init call st = call f (headless "lint" st).
Proof.
  intros Hc Hl Ht Hf Hdom.
  destruct (same_keys_lookup st "lint" Hdom) as [uses_display Hd]; [eauto|].
  eapply post_init_registered; [|exact Hf|exact Hd].
  eapply effective_command_run_lint; eassumption.
Qed.

Lemma post_init_run_lint_witness :
  let st := set_game_args {["command" := Py.Str "run"; "lint" := Py.Bool true]}
              (final (pre_init (startup ["renpy"; "game"; "--lint"] ∅ ∅))) in
  let call := call_function (fun _ => mret true) in
  commands st !! "run" = Some Run
  /\ post_init call st = call Lint (dummy_drivers st).
Proof.
  intros st call. split; [reflexivity|].
  apply (post_init_run_lint call st (Py.Bool true) Lint); reflexivity.
Defined.

Lemma setdefault_lookup key value (environ : gmap string string) :
  setdefault key value environ !! key = Some (default value (environ !! key)).
Proof.
  unfold setdefault. destruct (environ !! key) eqn:H; cbn.
  - exact H.
  - apply lookup_insert_eq.
Qed.

Lemma setdefault_lookup_ne key value (environ : gmap string string) k :
  k <> key -> setdefault key value environ !! k = environ !! k.
Proof.
  intros Hne. unfold setdefault. destruct (environ !! key); [reflexivity|].
  apply lookup_insert_ne. congruence.
Qed.

(** C6.  For a command registered with [uses_display = False],
    [post_init] calls its function in a state that differs from the
    previous one in [os.environ] only; there each of the two driver
    variables holds its previous value if it had one and ["dummy"]
    otherwise, and every other variable is as before. *)
Theorem post_init_dummy_drivers (call : function -> M bool) (st : state)
    (name : string) (f : function) :
  effective_command st = Done (Py.Str name) st ->
  commands st !! name = Some f ->
  display st !! name = Some false ->
  exists environ',
    post_init call st = call f (set_environ environ' st)
    /\ environ' !! "SDL_AUDIODRIVER"
       = Some (default "dummy" (environ st !! "SDL_AUDIODRIVER"))
    /\ environ' !! "SDL_VIDEODRIVER"
       = Some (default "dummy" (environ st !! "SDL_VIDEODRIVER"))
    /\ forall k, k <> "SDL_AUDIODRIVER" -> k <> "SDL_VIDEODRIVER" ->
                 environ' !! k = environ st !! k.
Proof.
  intros Heff Hf Hd.
  exists (setdefault "SDL_VIDEODRIVER" "dummy"
            (setdefault "SDL_AUDIODRIVER" "dummy" (environ st))).
  split; [|split; [|split]].
  - rewrite (post_init_registered call st name f false Heff Hf Hd).
    unfold headless. rewrite Hd. reflexivity.
  - rewrite setdefault_lookup_ne by discriminate. apply setdefault_lookup.
  - rewrite setdefault_lookup. rewrite setdefault_lookup_ne by discriminate.
    reflexivity.
  - intros k Ha Hv. rewrite !setdefault_lookup_ne by assumption. reflexivity.
Qed.

Lemma post_init_dummy_drivers_witness :
  let st := set_game_args {["command" := Py.Str "compile"]}
              (final (pre_init (startup ["renpy"; "game"; "compile"]
                                  {["SDL_VIDEODRIVER" := "x11"; "HOME" := "/root"]} ∅))) in
  let call := call_function (fun _ => mret true) in
  exists environ',
    post_init call st = call Compile (set_environ environ' st)
    /\ environ' !! "SDL_AUDIODRIVER" = Some "dummy"
    /\ environ' !! "SDL_VIDEODRIVER" = Some "x11"
    /\ environ' !! "HOME" = Some "/root".
Proof.
  intros st call.
  destruct (post_init_dummy_drivers call st "compile" Compile)
    as (environ' & Hpost & Haudio & Hvideo & Hother); try reflexivity.
  exists environ'. split; [exact Hpost|]. split; [exact Haudio|].
  split; [exact Hvideo|]. rewrite Hother by discriminate. reflexivity.
Defined.

(** ** The compile flag *)

Lemma in_compile_commands_done (v : Py.value) (st st' : state) (b : bool) :
  in_compile_commands v st = Done b st' ->
  st' = st /\ forall s, v = Py.Str s -> b = bool_decide (s ∈ compile_commands).
Proof.
  destruct v; cbn; intros [= <- <-]; (split; [reflexivity|]); intros ? [=].
  subst. reflexivity.
Qed.

(** The rules on the compile flag leave the other attributes alone and
    end with [compile = True] for a compile command. *)
Lemma parse_known_args_compile (self : ArgumentParser.t) (st st' : state)
    (args : Namespace) (rest : list string) (command : string) :
  command ∈ compile_commands ->
  ArgumentParser.parse_known_args self st = Done (args, rest) st' ->
  args !! "command" = Some (Py.Str command) ->
  args !! "compile" = Some (Py.Bool true).
Proof.
  intros Hin. unfold ArgumentParser.parse_known_args. run_monad.
  destruct (argparse.parse_known_args _ _) as [[args0 rest0]|]; [|discriminate].
  set (args1 := if Py.truthy (Py.dict_get (session st) "_reload" (Py.Bool false))
                then <["compile" := Py.Bool false]> args0 else args0).
  assert (H1 : args1 !! "command" = args0 !! "command").
  { unfold args1. destruct (Py.truthy _); [|reflexivity].
    apply lookup_insert_ne. discriminate. }
  destruct (args1 !! "command") as [v|] eqn:Hv; [|discriminate].
  destruct (in_compile_commands v st) as [forced st1|] eqn:Hf; [|discriminate].
  apply in_compile_commands_done in Hf as [-> Hforced].
  intros [= <- <- <-] Hcommand.
  assert (Hvc : v = Py.Str command).
  { destruct forced, (Py.truthy (Py.dict_get (session st) "compile" (Py.Bool false)));
      rewrite ?lookup_insert_ne in Hcommand by discriminate; congruence. }
  rewrite (Hforced _ Hvc), bool_decide_eq_true_2 by exact Hin.
  destruct (Py.truthy (Py.dict_get (session st) "compile" (Py.Bool false)));
    rewrite ?lookup_insert_eq; reflexivity.
Qed.

(** C2.  After a parse, lenient ([parse_known_args]) or strict
    ([parse_args]), that resolves the command to one of
    [compile_commands], the compile flag is true, whatever the tokens and
    the session markers were. *)
Theorem parse_compile_command (self : ArgumentParser.t) (st st' : state)
    (args : Namespace) (command : string) :
  command ∈ compile_commands ->
  args !! "command" = Some (Py.Str command) ->
  ((exists rest, ArgumentParser.parse_known_args self st = Done (args, rest) st')
   \/ ArgumentParser.parse_args self st = Done args st') ->
  args !! "compile" = Some (Py.Bool true).
Proof.
  intros Hin Hcommand [[rest Hparse]|Hparse].
  - eapply parse_known_args_compile; eassumption.
  - unfold ArgumentParser.parse_args in Hparse.
    unfold mbind, M_bind in Hparse.
    destruct (ArgumentParser.parse_known_args self st) as [[args0 rest] st0|] eqn:Hk;
      [|discriminate].
    destruct rest; [|discriminate]. injection Hparse as <- <-.
    eapply parse_known_args_compile; eassumption.
Qed.

Lemma parse_compile_command_witness :
  let st := startup ["renpy"; "game"; "merge_strings"] ∅ {["_reload" := Py.Bool true]} in
  let args := <["command" := Py.Str "merge_strings"]>
                (<["basedir" := Py.Str "game"]>
                   (<["compile" := Py.Bool true]> first_pass_defaults)) in
  exists ap,
    ArgumentParser.init false None false st = Done ap st
    /\ ArgumentParser.parse_known_args ap st = Done (args, []) st
    /\ args !! "compile" = Some (Py.Bool true).
Proof.
  intros st args. eexists. split; [reflexivity|].
  assert (Hin : "merge_strings" ∈ compile_commands).
  { apply (bool_decide_eq_true_1 ("merge_strings" ∈ compile_commands)).
    vm_compute. reflexivity. }
  match goal with
  | |- ?parse = _ /\ _ => assert (Hparse : parse = Done (args, []) st) by evaluate
  end.
  split; [exact Hparse|].
  eapply (parse_compile_command _ st st args "merge_strings" Hin).
  - vm_compute. reflexivity.
  - left. eexists. exact Hparse.
Defined.

(** ** The bootstrap pass *)






(** *** Inputs that hold no positional argument *)









(** What counts as holding no positional argument, for the parser of
    the bootstrap pass: flags, an option with its value in the next
    string or after an equals sign, options the parser does not know and
    a final [--] do; a string after an unknown option, or a bare string,
    does not. *)
Example no_positionals_cases (st : state) (ap : ArgumentParser.t) :
  ArgumentParser.init false None false st = Done ap st ->
  no_positionals ap ["--compile"] = true
  /\ no_positionals ap ["--savedir"; "/tmp/saves"] = true
  /\ no_positionals ap ["--trace=2"; "--frobnicate"; "--"] = true
  /\ no_positionals ap ["--frobnicate"; "value"] = false
  /\ no_positionals ap ["game"] = false
  /\ no_positionals ap ["--"; "game"] = false.
Proof.
  unfold ArgumentParser.init. run_monad. destruct (argv st); [discriminate|].
  intros [= <-]. repeat split; vm_compute; reflexivity.
Qed.

(** C7.  When [bootstrap] returns with the command resolved to
    ["lint"], the lint flag of the returned arguments is true. *)
Theorem bootstrap_lint_command (st st' : state) (args : Namespace) :
  bootstrap st = Done args st' ->
  args !! "command" = Some (Py.Str "lint") ->
  args !! "lint" = Some (Py.Bool true).
Proof.
  unfold bootstrap. unfold mbind, M_bind.
  destruct (clean_epic_arguments st) as [[] st1|]; [|discriminate].
  destruct (clean_macos_arguments st1) as [[] st2|]; [|discriminate].
  destruct (ArgumentParser.init false None false st2) as [ap st3|]; [|discriminate].
  destruct (ArgumentParser.parse_known_args ap st3) as [[args0 rest] st4|];
    [|discriminate].
  unfold getattr. destruct (args0 !! "command") as [command|] eqn:Hc; [|discriminate].
  unfold mret, M_ret. intros [= <- <-].
  destruct (Py.eq_str command "lint") eqn:Heq.
  - intros _. apply lookup_insert_eq.
  - rewrite Hc. intros [= ->]. discriminate Heq.
Qed.

Lemma bootstrap_lint_command_witness :
  let st := startup ["renpy"; "game"; "lint"] ∅ ∅ in
  let args := <["lint" := Py.Bool true]>
                (<["command" := Py.Str "lint"]>
                   (<["basedir" := Py.Str "game"]> first_pass_defaults)) in
  bootstrap st = Done args st
  /\ args !! "lint" = Some (Py.Bool true).
Proof.
  intros st args.
  assert (Hboot : bootstrap st = Done args st) by evaluate.
  split; [exact Hboot|].
  apply (bootstrap_lint_command st st args Hboot). vm_compute. reflexivity.
Defined.

(** C3.  The lenient parse of [--frobnicate] and of [--tweak] leaves a
    different list of unrecognized tokens, and [bootstrap] returns the same
    value for both: the parsed arguments alone. *)
Theorem bootstrap_drops_unrecognized :
  let st1 := startup ["renpy"; "--frobnicate"] ∅ ∅ in
  let st2 := startup ["renpy"; "--tweak"] ∅ ∅ in
  (exists ap,
      ArgumentParser.init false None false st1 = Done ap st1
      /\ ArgumentParser.parse_known_args ap st1
         = Done (first_pass_defaults, ["--frobnicate"]) st1
      /\ ArgumentParser.parse_known_args ap st2
         = Done (first_pass_defaults, ["--tweak"]) st2)
  /\ bootstrap st1 = Done first_pass_defaults st1
  /\ bootstrap st2 = Done first_pass_defaults st2.
Proof.
  intros st1 st2. split; [|split; evaluate].
  eexists. split; [reflexivity|]. split; evaluate.
Qed.

(** ** The warp specification *)

Lemma init_state second_pass description require_command st :
  final (ArgumentParser.init second_pass description require_command st) = st.
Proof.
  unfold ArgumentParser.init. run_monad.
  destruct (argv st); [reflexivity|].
  destruct second_pass; [|reflexivity].
  destruct (game_args st !! "command"); reflexivity.
Qed.

Lemma parse_known_args_state ap st :
  final (ArgumentParser.parse_known_args ap st) = st.
Proof.
  unfold ArgumentParser.parse_known_args. run_monad.
  destruct (argparse.parse_known_args _ _) as [[args rest]|]; [|reflexivity].
  destruct (_ !! "command") as [command|]; [|reflexivity].
  destruct command; reflexivity.
Qed.

Lemma parse_args_state ap st : final (ArgumentParser.parse_args ap st) = st.
Proof.
  unfold ArgumentParser.parse_args. cbv [mbind M_bind].
  pose proof (parse_known_args_state ap st) as H.
  destruct (ArgumentParser.parse_known_args ap st) as [[args [|? ?]] st1|];
    cbn in H |- *; exact H.
Qed.

Lemma warped_after_assignment st st' :
  session st' = <["_warped" := Py.Bool true]> (session st) -> warped st' = true.
Proof.
  intros H. unfold warped, Py.dict_get. rewrite H, lookup_insert_eq. reflexivity.
Qed.

(** Steps compose: after an assignment the marker is set, so a second
    assignment cannot follow. *)
Lemma warp_step_trans st1 st2 st3 :
  warp_step st1 st2 -> warp_step st2 st3 -> warp_step st1 st3.
Proof.
  intros [Hw Hs|w Hu Hw Hs] [Hw' Hs'|w' Hu' Hw' Hs'].
  - apply warp_kept; congruence.
  - apply (warp_assigned _ _ w'); [|congruence|congruence].
    unfold warped in *. rewrite <- Hs. exact Hu'.
  - apply (warp_assigned _ _ w); congruence.
  - rewrite (warped_after_assignment _ _ Hs) in Hu'. discriminate.
Qed.

Lemma warp_safe_ret {A} (a : A) : warp_safe (mret a).
Proof. intros st. apply warp_kept; reflexivity. Qed.

Lemma warp_safe_raise {A} (e : Py.exn) : warp_safe (@raise A e).
Proof. intros st. apply warp_kept; reflexivity. Qed.

Lemma warp_safe_getattr args name : warp_safe (getattr args name).
Proof.
  unfold getattr. destruct (args !! name); [apply warp_safe_ret|apply warp_safe_raise].
Qed.

Lemma warp_safe_modify (f : state -> state) :
  (forall st, warp_spec (f st) = warp_spec st /\ session (f st) = session st) ->
  warp_safe (modify f).
Proof. intros H st. destruct (H st). apply warp_kept; assumption. Qed.

Lemma warp_safe_bind {A B} (m : M A) (k : A -> M B) :
  warp_safe m -> (forall a, warp_safe (k a)) -> warp_safe (m ≫= k).
Proof.
  intros Hm Hk st. specialize (Hm st). cbv [mbind M_bind].
  destruct (m st) as [a st1|e st1]; cbn [final] in Hm |- *.
  - eapply warp_step_trans; [exact Hm|apply Hk].
  - exact Hm.
Qed.

Lemma warp_safe_init second_pass description require_command :
  warp_safe (ArgumentParser.init second_pass description require_command).
Proof. intros st. rewrite init_state. apply warp_kept; reflexivity. Qed.

Lemma warp_safe_parse_args ap : warp_safe (ArgumentParser.parse_args ap).
Proof. intros st. rewrite parse_args_state. apply warp_kept; reflexivity. Qed.

Lemma warp_safe_gets_bind {A B} (f : state -> A) (k : A -> M B) :
  (forall st, warp_step st (final (k (f st) st))) -> warp_safe (gets f ≫= k).
Proof. intros H st. exact (H st). Qed.

Lemma warp_step_bind {A B} (m : M A) (k : A -> M B) st a st1 :
  m st = Done a st1 -> warp_step st st1 -> warp_safe (k a) ->
  warp_step st (final ((m ≫= k) st)).
Proof.
  intros Hm H1 Hk. cbv [mbind M_bind]. rewrite Hm.
  eapply warp_step_trans; [exact H1|apply Hk].
Qed.

Lemma warp_safe_flag (b : bool) (f : state -> state) :
  (forall st, warp_spec (f st) = warp_spec st /\ session (f st) = session st) ->
  warp_safe (if b then modify f else mret tt).
Proof. intros H. destruct b; [apply warp_safe_modify, H|apply warp_safe_ret]. Qed.

(** One call of [run] makes at most one step. *)
Lemma warp_safe_run : warp_safe run.
Proof.
  assert (Hconfig : forall args : Namespace, warp_safe (
            profile_display ← getattr args "profile_display";
            _ ← (if Py.truthy profile_display
                 then modify (set_config_profile true) else mret tt);
            debug_image_cache ← getattr args "debug_image_cache";
            _ ← (if Py.truthy debug_image_cache
                 then modify (set_config_debug_image_cache true) else mret tt);
            mret true)).
  { intros args.
    apply warp_safe_bind; [apply warp_safe_getattr|intros v].
    apply warp_safe_bind; [apply warp_safe_flag; intros; split; reflexivity|intros _].
    apply warp_safe_bind; [apply warp_safe_getattr|intros v'].
    apply warp_safe_bind; [apply warp_safe_flag; intros; split; reflexivity|intros _].
    apply warp_safe_ret. }
  unfold run.
  apply warp_safe_bind; [apply warp_safe_init|intros ap].
  apply warp_safe_bind; [apply warp_safe_parse_args|intros args].
  apply warp_safe_bind; [apply warp_safe_modify; intros; split; reflexivity|intros _].
  apply warp_safe_bind; [apply warp_safe_getattr|intros warp].
  apply warp_safe_gets_bind. intros st. fold (warped st).
  destruct (Py.truthy warp && negb (warped st)) eqn:Hguard.
  - apply andb_true_iff in Hguard as [_ Hunset]. apply negb_true_iff in Hunset.
    eapply warp_step_bind; [reflexivity| |apply Hconfig].
    apply (warp_assigned _ _ warp); [exact Hunset|reflexivity|reflexivity].
  - eapply warp_step_bind; [reflexivity| |apply Hconfig].
    apply warp_kept; reflexivity.
Qed.

(** C10.  Over any sequence of calls of the run handler in one session,
    [renpy.warp.warp_spec] is assigned at most once: never when the
    [_warped] marker is set at the start, and an assignment sets the
    marker. *)
Theorem run_each_warps_once (argvs : list (list string)) (st : state) :
  let st' := final (run_each argvs st) in
  (warped st = true -> warp_spec st' = warp_spec st)
  /\ (warp_spec st' = warp_spec st
      \/ exists w, warp_spec st' = w :: warp_spec st
                   /\ warped st = false /\ warped st' = true).
Proof.
  assert (Hsafe : warp_safe (run_each argvs)).
  { induction argvs as [|argv r IH]; [apply warp_safe_ret|].
    cbn [run_each].
    apply warp_safe_bind; [apply warp_safe_modify; intros; split; reflexivity|intros _].
    apply warp_safe_bind; [apply warp_safe_run|intros _]. exact IH. }
  intros st'. destruct (Hsafe st) as [Hw Hs|w Hu Hw Hs]; fold st' in Hw, Hs.
  - split; [intros _; exact Hw|left; exact Hw].
  - split; [intros Hset; congruence|].
    right. exists w. split; [exact Hw|]. split; [exact Hu|].
    eapply warped_after_assignment, Hs.
Qed.

Lemma run_each_warps_once_witness :
  let argv := ["renpy"; "game"; "run"; "--warp"; "script.rpy:10"] in
  let st := set_game_args first_pass_defaults (startup argv ∅ ∅) in
  let st' := final (run_each [argv; argv; argv] st) in
  warp_spec st' = [Py.Str "script.rpy:10"] /\ warped st' = true.
Proof.
  intros argv st st'.
  destruct (run_each_warps_once [argv; argv; argv] st) as [_ [Hkept|(w & Hw & _ & Hset)]];
    fold st' in Hkept || fold st' in Hw, Hset.
  - exfalso. revert Hkept. vm_compute. discriminate.
  - split; [|exact Hset]. rewrite Hw. f_equal.
    assert (Hhead : head (warp_spec st') = Some (Py.Str "script.rpy:10"))
      by (vm_compute; reflexivity).
    rewrite Hw in Hhead. cbn in Hhead. congruence.
Defined.

(** * Further properties *)

(** ** The rules on the compile flag, one by one *)

(** What a returning [parse_known_args] has gone through: the library's
    parse of [sys.argv[1:]], then the three rules, with the state as it
    was. *)
Lemma parse_known_args_inv (self : ArgumentParser.t) (st st' : state)
    (args : Namespace) (rest : list string) :
  ArgumentParser.parse_known_args self st = Done (args, rest) st' ->
  st' = st
  /\ exists args0 command forced,
       argparse.parse_known_args (ArgumentParser.actions self) (tail (argv st))
       = Py.Return (args0, rest)
       /\ (if Py.truthy (Py.dict_get (session st) "_reload" (Py.Bool false))
           then <["compile" := Py.Bool false]> args0 else args0) !! "command"
          = Some command
       /\ in_compile_commands command st = Done forced st
       /\ args =
          let args1 :=
            if Py.truthy (Py.dict_get (session st) "_reload" (Py.Bool false))
            then <["compile" := Py.Bool false]> args0 else args0 in
          let args2 := if forced then <["compile" := Py.Bool true]> args1 else args1 in
          if Py.truthy (Py.dict_get (session st) "compile" (Py.Bool false))
          then <["compile" := Py.Bool true]> args2 else args2.
Proof.
  unfold ArgumentParser.parse_known_args. run_monad.
  destruct (argparse.parse_known_args _ _) as [[args0 rest0]|]; [|discriminate].
  destruct (_ !! "command") as [command|] eqn:Hcommand; [|discriminate].
  destruct (in_compile_commands command st) as [forced st1|] eqn:Hforced;
    [|discriminate].
  pose proof (in_compile_commands_done _ _ _ _ Hforced) as [-> _].
  intros [= <- <- <-]. split; [reflexivity|].
  exists args0, command, forced. auto.
Qed.

(** X1.  Under a reload ([_reload] set in the session), a parse that
    resolves a command outside [compile_commands], with no [compile]
    marker in the session, returns the compile flag false, also when
    [--compile] was passed. *)
Theorem parse_reload_clears_compile (self : ArgumentParser.t) (st st' : state)
    (args : Namespace) (rest : list string) (command : string) :
  ArgumentParser.parse_known_args self st = Done (args, rest) st' ->
  Py.truthy (Py.dict_get (session st) "_reload" (Py.Bool false)) = true ->
  Py.truthy (Py.dict_get (session st) "compile" (Py.Bool false)) = false ->
  args !! "command" = Some (Py.Str command) ->
  command ∉ compile_commands ->
  args !! "compile" = Some (Py.Bool false).
Proof.
  intros Hparse Hreload Hcompile Hcommand Hout.
  apply parse_known_args_inv in Hparse
    as (-> & args0 & v & forced & _ & Hv & Hforced & ->).
  rewrite Hreload in *. rewrite Hcompile in *. cbn zeta in *.
  apply in_compile_commands_done in Hforced as [_ Hforced].
  rewrite lookup_insert_ne in Hv by discriminate.
  assert (v = Py.Str command) as ->.
  { destruct forced; rewrite ?lookup_insert_ne in Hcommand by discriminate;
      congruence. }
  rewrite (Hforced _ eq_refl), bool_decide_eq_false_2 by exact Hout.
  apply lookup_insert_eq.
Qed.

Lemma parse_reload_clears_compile_witness :
  let st := startup ["renpy"; "game"; "run"; "--compile"] ∅
              {["_reload" := Py.Bool true]} in
  let args := <["basedir" := Py.Str "game"]> first_pass_defaults in
  exists ap,
    ArgumentParser.init false None false st = Done ap st
    /\ ArgumentParser.parse_known_args ap st = Done (args, []) st
    /\ args !! "compile" = Some (Py.Bool false).
Proof.
  intros st args. eexists. split; [reflexivity|].
  match goal with
  | |- ?parse = _ /\ _ => assert (Hparse : parse = Done (args, []) st) by evaluate
  end.
  split; [exact Hparse|].
  apply (parse_reload_clears_compile _ st st args [] "run" Hparse);
    [reflexivity|reflexivity|vm_compute; reflexivity|].
  apply (bool_decide_eq_false_1 ("run" ∈ compile_commands)). vm_compute. reflexivity.
Defined.

(** X2.  With the [compile] marker set in the session, every returning
    parse has the compile flag true, whatever the command and also under a
    reload. *)
Theorem parse_session_compile (self : ArgumentParser.t) (st st' : state)
    (args : Namespace) (rest : list string) :
  ArgumentParser.parse_known_args self st = Done (args, rest) st' ->
  Py.truthy (Py.dict_get (session st) "compile" (Py.Bool false)) = true ->
  args !! "compile" = Some (Py.Bool true).
Proof.
  intros Hparse Hcompile.
  apply parse_known_args_inv in Hparse
    as (-> & args0 & v & forced & _ & _ & _ & ->).
  rewrite Hcompile. apply lookup_insert_eq.
Qed.

Lemma parse_session_compile_witness :
  let st := startup ["renpy"; "game"; "run"] ∅
              {["_reload" := Py.Bool true; "compile" := Py.Int 1]} in
  let args := <["compile" := Py.Bool true]>
                (<["basedir" := Py.Str "game"]> first_pass_defaults) in
  exists ap,
    ArgumentParser.init false None false st = Done ap st
    /\ ArgumentParser.parse_known_args ap st = Done (args, []) st
    /\ args !! "compile" = Some (Py.Bool true).
Proof.
  intros st args. eexists. split; [reflexivity|].
  match goal with
  | |- ?parse = _ /\ _ => assert (Hparse : parse = Done (args, []) st) by evaluate
  end.
  split; [exact Hparse|].
  apply (parse_session_compile _ st st args [] Hparse). reflexivity.
Defined.

(** X3.  A returning [parse_known_args] leaves the globals as they were,
    hands on the library's list of unrecognized strings, and differs from
    the library's namespace in the compile attribute at most. *)
Theorem parse_known_args_frame (self : ArgumentParser.t) (st st' : state)
    (args : Namespace) (rest : list string) :
  ArgumentParser.parse_known_args self st = Done (args, rest) st' ->
  st' = st
  /\ exists args0,
       argparse.parse_known_args (ArgumentParser.actions self) (tail (argv st))
       = Py.Return (args0, rest)
       /\ forall k, k <> "compile" -> args !! k = args0 !! k.
Proof.
  intros Hparse.
  apply parse_known_args_inv in Hparse
    as (-> & args0 & v & forced & Hlib & _ & _ & ->).
  split; [reflexivity|]. exists args0. split; [exact Hlib|].
  intros k Hk.
  destruct (Py.truthy (Py.dict_get (session st) "_reload" (Py.Bool false))),
    forced, (Py.truthy (Py.dict_get (session st) "compile" (Py.Bool false)));
    cbn zeta; rewrite ?lookup_insert_ne by congruence; reflexivity.
Qed.

Lemma parse_known_args_frame_witness :
  let st := startup ["renpy"; "game"; "compile"; "--trace"; "2"; "--frobnicate"] ∅
              {["_reload" := Py.Bool true]} in
  let args := <["compile" := Py.Bool true]>
                (<["trace" := Py.Int 2]>
                   (<["command" := Py.Str "compile"]>
                      (<["basedir" := Py.Str "game"]> first_pass_defaults))) in
  exists ap,
    ArgumentParser.init false None false st = Done ap st
    /\ ArgumentParser.parse_known_args ap st = Done (args, ["--frobnicate"]) st
    /\ exists args0,
         argparse.parse_known_args (ArgumentParser.actions ap) (tail (argv st))
         = Py.Return (args0, ["--frobnicate"])
         /\ args !! "trace" = args0 !! "trace".
Proof.
  intros st args. eexists. split; [reflexivity|].
  match goal with
  | |- ?parse = _ /\ _ =>
      assert (Hparse : parse = Done (args, ["--frobnicate"]) st) by evaluate
  end.
  split; [exact Hparse|].
  destruct (parse_known_args_frame _ st st args _ Hparse) as (_ & args0 & Hlib & Hk).
  exists args0. split; [exact Hlib|]. apply Hk. discriminate.
Defined.

(** X4.  When neither session marker is set and the library resolves a
    command outside [compile_commands], [parse_known_args] returns exactly
    what the library returned: the compile flag says whether [--compile]
    was passed. *)
Theorem parse_known_args_plain (self : ArgumentParser.t) (st : state)
    (args0 : Namespace) (rest : list string) (command : string) :
  argparse.parse_known_args (ArgumentParser.actions self) (tail (argv st))
  = Py.Return (args0, rest) ->
  Py.truthy (Py.dict_get (session st) "_reload" (Py.Bool false)) = false ->
  Py.truthy (Py.dict_get (session st) "compile" (Py.Bool false)) = false ->
  args0 !! "command" = Some (Py.Str command) ->
  command ∉ compile_commands ->
  ArgumentParser.parse_known_args self st = Done (args0, rest) st.
Proof.
  intros Hlib Hreload Hcompile Hcommand Hout.
  unfold ArgumentParser.parse_known_args. run_monad.
  rewrite Hlib, Hreload, Hcommand. cbn.
  rewrite bool_decide_eq_false_2 by exact Hout. rewrite Hcompile. reflexivity.
Qed.

Lemma parse_known_args_plain_witness :
  let st := startup ["renpy"; "game"; "run"; "--compile"] ∅ ∅ in
  let args := <["compile" := Py.Bool true]>
                (<["basedir" := Py.Str "game"]> first_pass_defaults) in
  exists ap,
    ArgumentParser.init false None false st = Done ap st
    /\ ArgumentParser.parse_known_args ap st = Done (args, []) st.
Proof.
  intros st args. eexists. split; [reflexivity|].
  apply (parse_known_args_plain _ st args [] "run");
    [evaluate|reflexivity|reflexivity|vm_compute; reflexivity|].
  apply (bool_decide_eq_false_1 ("run" ∈ compile_commands)). vm_compute. reflexivity.
Defined.

(** ** Registrations *)

(** X5.  [register_command] always returns; afterwards the name maps to
    the function and the display flag just given, whatever was registered
    under it before, every other name is as it was, and no other global
    has changed. *)
Theorem register_command_lookup (name : string) (f : function) (uses_display : bool)
    (st : state) :
  exists st',
    register_command name f uses_display st = Done tt st'
    /\ commands st' !! name = Some f
    /\ display st' !! name = Some uses_display
    /\ (forall other, other <> name ->
          commands st' !! other = commands st !! other
          /\ display st' !! other = display st !! other)
    /\ st' = set_display (display st') (set_commands (commands st') st).
Proof.
  eexists. split; [apply register_command_done|]. cbn.
  split; [apply lookup_insert_eq|]. split; [apply lookup_insert_eq|].
  split; [|reflexivity].
  intros other Hne. rewrite !lookup_insert_ne by congruence. auto.
Qed.

(** X6.  Registrations under different names commute: either order ends
    in the same state. *)
Theorem register_command_commute (name1 name2 : string) (f1 f2 : function)
    (d1 d2 : bool) (st : state) :
  name1 <> name2 ->
  (_ ← register_command name1 f1 d1; register_command name2 f2 d2) st
  = (_ ← register_command name2 f2 d2; register_command name1 f1 d1) st.
Proof.
  intros Hne. cbv [mbind M_bind]. rewrite !register_command_done. cbn.
  rewrite (insert_insert_ne (commands st) name1 name2) by exact Hne.
  rewrite (insert_insert_ne (display st) name1 name2) by exact Hne.
  reflexivity.
Qed.

Lemma register_command_commute_witness :
  let st := startup ["renpy"] ∅ ∅ in
  (_ ← register_command "lint" Lint false; register_command "run" Run true) st
  = (_ ← register_command "run" Run true; register_command "lint" Lint false) st.
Proof.
  intros st. apply (register_command_commute "lint" "run"). discriminate.
Defined.

Lemma pre_init_done st :
  pre_init st
  = Done tt
      (set_display
         (<["quit" := false]> (<["rmpersistent" := false]> (<["compile" := false]>
            (<["lint" := false]> (<["run" := true]> (display st))))))
         (set_commands
            (<["quit" := Quit]> (<["rmpersistent" := Rmpersistent]>
               (<["compile" := Compile]> (<["lint" := Lint]>
                  (<["run" := Run]> (commands st))))))
            st)).
Proof. reflexivity. Qed.

(** X7.  From any state [pre_init] returns with the five built-in
    commands registered: ["run"] with the display, ["lint"], ["compile"],
    ["rmpersistent"] and ["quit"] without, each under its own function and
    over anything registered under these names before.  Every other
    registration, and every other global, is kept. *)
Theorem pre_init_registers (st : state) :
  exists st',
    pre_init st = Done tt st'
    /\ (commands st' !! "run" = Some Run /\ display st' !! "run" = Some true)
    /\ (commands st' !! "lint" = Some Lint /\ display st' !! "lint" = Some false)
    /\ (commands st' !! "compile" = Some Compile
        /\ display st' !! "compile" = Some false)
    /\ (commands st' !! "rmpersistent" = Some Rmpersistent
        /\ display st' !! "rmpersistent" = Some false)
    /\ (commands st' !! "quit" = Some Quit /\ display st' !! "quit" = Some false)
    /\ (forall name,
          name ∉ ["run"; "lint"; "compile"; "rmpersistent"; "quit"] ->
          commands st' !! name = commands st !! name
          /\ display st' !! name = display st !! name)
    /\ st' = set_display (display st') (set_commands (commands st') st).
Proof.
  eexists. split; [apply pre_init_done|]. cbn.
  repeat (split; [split; simplify_map_eq; reflexivity|]).
  split; [|reflexivity].
  intros name Hname.
  assert (name <> "run" /\ name <> "lint" /\ name <> "compile"
          /\ name <> "rmpersistent" /\ name <> "quit") as (? & ? & ? & ? & ?).
  { repeat split; intros ->; apply Hname; set_solver. }
  rewrite !lookup_insert_ne by congruence. auto.
Qed.

(** ** More on dispatch *)

Lemma headless_display name st (uses_display : bool) :
  display st !! name = Some uses_display ->
  headless name st = if uses_display then st else dummy_drivers st.
Proof. intros H. unfold headless. rewrite H. destruct uses_display; reflexivity. Qed.

(** X8.  After [pre_init], [post_init] sends each built-in command to its
    own function: ["run"] in the state as it is, the other four with the
    two driver variables defaulted to ["dummy"]. *)
Theorem post_init_builtin (call : function -> M bool) (st st1 : state) :
  pre_init st = Done tt st1 ->
  (effective_command st1 = Done (Py.Str "run") st1 ->
   post_init call st1 = call Run st1)
  /\ forall name f,
       In (name, f) [("lint", Lint); ("compile", Compile);
                     ("rmpersistent", Rmpersistent); ("quit", Quit)] ->
       effective_command st1 = Done (Py.Str name) st1 ->
       post_init call st1 = call f (dummy_drivers st1).
Proof.
  intros Hpre. rewrite pre_init_done in Hpre. injection Hpre as Hst1.
  assert (Hreg : forall name f (d : bool),
             In (name, f, d) [("run", Run, true); ("lint", Lint, false);
                              ("compile", Compile, false);
                              ("rmpersistent", Rmpersistent, false);
                              ("quit", Quit, false)] ->
             commands st1 !! name = Some f /\ display st1 !! name = Some d).
  { intros name f d Hin. rewrite <- Hst1. cbn in Hin |- *.
    destruct Hin as [[= <- <- <-]|[[= <- <- <-]|[[= <- <- <-]|[[= <- <- <-]
                    |[[= <- <- <-]|[]]]]]];
      split; simplify_map_eq; reflexivity. }
  split.
  - intros Heff. destruct (Hreg "run" Run true) as [Hf Hd]; [cbn; auto|].
    rewrite (post_init_registered call st1 "run" Run true Heff Hf Hd).
    rewrite (headless_display _ _ _ Hd). reflexivity.
  - intros name f Hin Heff.
    destruct (Hreg name f false) as [Hf Hd].
    { cbn in Hin |- *.
      destruct Hin as [[= <- <-]|[[= <- <-]|[[= <- <-]|[[= <- <-]|[]]]]]; auto 6. }
    rewrite (post_init_registered call st1 name f false Heff Hf Hd).
    rewrite (headless_display _ _ _ Hd). reflexivity.
Qed.

Lemma post_init_builtin_witness :
  let st := set_game_args {["command" := Py.Str "quit"]}
              (startup ["renpy"; "game"; "quit"] ∅ ∅) in
  let st1 := final (pre_init st) in
  let call := call_function (fun _ => mret true) in
  post_init call st1 = call Quit (dummy_drivers st1).
Proof.
  intros st st1 call.
  destruct (post_init_builtin call st st1 eq_refl) as [_ H].
  apply (H "quit" Quit); [cbn; tauto|reflexivity].
Defined.

(** X9.  For a command registered as using the display, [post_init]
    calls its function in the very state it started from: [os.environ] is
    not touched. *)
Theorem post_init_keeps_display (call : function -> M bool) (st : state)
    (name : string) (f : function) :
  effective_command st = Done (Py.Str name) st ->
  commands st !! name = Some f ->
  display st !! name = Some true ->
  post_init call st = call f st.
Proof.
  intros Heff Hf Hd.
  rewrite (post_init_registered call st name f true Heff Hf Hd).
  unfold headless. rewrite Hd. reflexivity.
Qed.

Lemma post_init_keeps_display_witness :
  let st := set_game_args {["command" := Py.Str "run"; "lint" := Py.Bool false]}
              (final (pre_init (startup ["renpy"; "game"; "run"] ∅ ∅))) in
  let call := call_function (fun _ => mret true) in
  post_init call st = call Run st.
Proof.
  intros st call. apply (post_init_keeps_display call st "run" Run); reflexivity.
Defined.

(** X10.  The lint flag redirects the command ["run"] only: a command
    with another name is dispatched under its own name whatever the lint
    flag, even if there is none, and ["run"] under its own name when the
    flag is false. *)
Theorem post_init_no_redirect (call : function -> M bool) (st : state)
    (command : string) (f : function) (uses_display : bool) :
  game_args st !! "command" = Some (Py.Str command) ->
  (command <> "run"
   \/ exists lint, game_args st !! "lint" = Some lint /\ Py.truthy lint = false) ->
  commands st !! command = Some f ->
  display st !! command = Some uses_display ->
  post_init call st = call f (headless command st).
Proof.
  intros Hcommand Hlint Hf Hd.
  apply (post_init_registered call st command f uses_display); [|exact Hf|exact Hd].
  unfold effective_command. run_monad. rewrite Hcommand. cbn.
  destruct (String.eqb command "run") eqn:Heq; [|reflexivity].
  apply String.eqb_eq in Heq as ->.
  destruct Hlint as [Hne|(lint & Hl & Ht)]; [congruence|].
  rewrite Hl, Ht. reflexivity.
Qed.

Lemma post_init_no_redirect_witness :
  let st := set_game_args {["command" := Py.Str "compile"; "lint" := Py.Bool true]}
              (final (pre_init (startup ["renpy"; "game"; "compile"; "--lint"] ∅ ∅))) in
  let call := call_function (fun _ => mret true) in
  post_init call st = call Compile (dummy_drivers st).
Proof.
  intros st call.
  assert (Hstate : headless "compile" st = dummy_drivers st) by evaluate.
  rewrite <- Hstate.
  apply (post_init_no_redirect call st "compile" Compile false);
    [vm_compute; reflexivity|left; discriminate
    |vm_compute; reflexivity|vm_compute; reflexivity].
Defined.

(** X11.  If a name is a key of [commands] but not of [display],
    [post_init] raises [KeyError] at [display[command]]: no function is
    called and no environment variable is set. *)
Theorem post_init_display_missing (call : function -> M bool) (st : state)
    (name : string) (f : function) :
  effective_command st = Done (Py.Str name) st ->
  commands st !! name = Some f ->
  display st !! name = None ->
  post_init call st = Raised (Py.KeyError name) st.
Proof.
  intros Heff Hf Hd. unfold post_init. run_monad. rewrite Heff, Hf, Hd. reflexivity.
Qed.

Lemma post_init_display_missing_witness :
  let st := set_commands {["export" := Callable "export"]}
              (set_game_args {["command" := Py.Str "export"]}
                 (startup ["renpy"; "game"; "export"] ∅ ∅)) in
  post_init (call_function (fun _ => mret true)) st
  = Raised (Py.KeyError "export") st.
Proof.
  intros st.
  apply (post_init_display_missing _ st "export" (Callable "export")); reflexivity.
Defined.

(** ** More on the sanitizer *)

(** X12.  The sanitizer always returns, also on an empty vector.  The
    vector it leaves is the one it found or just its first element; the
    side channel is as it was or holds the tail of the vector it found; no
    other global changes. *)
Theorem sanitize_total (st : state) :
  exists st',
    sanitize st = Done tt st'
    /\ (argv st' = argv st \/ argv st' = take 1 (argv st))
    /\ (epic_arguments st' = epic_arguments st
        \/ epic_arguments st' = Some (tail (argv st)))
    /\ st' = set_argv (argv st') (set_epic_arguments (epic_arguments st') st).
Proof.
  unfold sanitize, clean_epic_arguments, clean_macos_arguments. run_monad.
  destruct st as [argv0 ? ? ? ? ? ? ? ? ? ? ?]. cbn [argv].
  destruct argv0 as [|program_name tokens]; cbn [tail existsb].
  - eexists. split; [reflexivity|]. cbn. auto.
  - destruct (existsb _ tokens); cbn [argv set_argv set_epic_arguments tail existsb].
    + eexists. split; [reflexivity|]. cbn. auto.
    + destruct (existsb _ tokens); eexists; (split; [reflexivity|]); cbn; auto.
Qed.

(** X13.  Sanitizing twice is sanitizing once: the second pass finds
    nothing to remove and leaves the side channel alone. *)
Theorem sanitize_idempotent (st : state) :
  (_ ← sanitize; sanitize) st = sanitize st.
Proof.
  unfold sanitize, clean_epic_arguments, clean_macos_arguments. run_monad.
  destruct st as [argv0 ? ? ? ? ? ? ? ? ? ? ?]. cbn [argv].
  destruct argv0 as [|program_name tokens]; cbn [tail existsb]; [reflexivity|].
  destruct (existsb (fun i => Py.startswith (Py.lower i) "-epicapp=") tokens)
    eqn:Hepic;
    cbn [argv set_argv set_epic_arguments tail existsb]; [reflexivity|].
  destruct (existsb (fun i => Py.startswith (Py.lower i) "-psn") tokens)
    eqn:Hpsn;
    cbn [argv set_argv set_epic_arguments tail existsb]; [reflexivity|].
  rewrite Hepic. cbn [argv tail]. rewrite Hpsn. reflexivity.
Qed.

(** ** More on the bootstrap pass *)

Lemma final_bind {A B} (m : M A) (k : A -> M B) st :
  final ((m ≫= k) st)
  = match m st with
    | Done a st1 => final (k a st1)
    | Raised _ st1 => st1
    end.
Proof. cbv [mbind M_bind]. destruct (m st); reflexivity. Qed.

(** X14.  The only globals [bootstrap] changes are those the sanitizer
    changes: parsing itself, and the lint special case, touch none.  In
    particular [bootstrap] does not store its result in
    [renpy.game.args]. *)
Theorem bootstrap_effects (st : state) :
  final (bootstrap st) = final (sanitize st).
Proof.
  unfold bootstrap, sanitize. rewrite !final_bind.
  destruct (clean_epic_arguments st) as [[] st1|e st1]; [|reflexivity].
  rewrite !final_bind.
  destruct (clean_macos_arguments st1) as [[] st2|e st2]; [|reflexivity].
  rewrite final_bind.
  pose proof (init_state false None false st2) as Hinit.
  destruct (ArgumentParser.init false None false st2) as [ap st3|e st3];
    cbn [final] in Hinit; subst st3; [|reflexivity].
  rewrite final_bind.
  pose proof (parse_known_args_state ap st2) as Hparse.
  destruct (ArgumentParser.parse_known_args ap st2) as [[args rest] st3|e st3];
    cbn [final] in Hparse; subst st3; [|reflexivity].
  rewrite final_bind. unfold getattr.
  destruct (args !! "command"); reflexivity.
Qed.

(** X15.  What [bootstrap] returns is what the lenient
    [parse_known_args] returned on the sanitized vector, with the lint
    attribute as the only possible difference, and no difference at all
    unless the command is ["lint"]: the command itself is never
    rewritten. *)
Theorem bootstrap_only_lint (st st' : state) (args : Namespace) :
  bootstrap st = Done args st' ->
  exists ap args0 rest,
    ArgumentParser.init false None false (final (sanitize st))
    = Done ap (final (sanitize st))
    /\ ArgumentParser.parse_known_args ap (final (sanitize st))
       = Done (args0, rest) st'
    /\ (forall k, k <> "lint" -> args !! k = args0 !! k)
    /\ (args0 !! "command" <> Some (Py.Str "lint") -> args = args0).
Proof.
  unfold bootstrap, sanitize. cbv [mbind M_bind].
  destruct (clean_epic_arguments st) as [[] st1|]; [|discriminate].
  destruct (clean_macos_arguments st1) as [[] st2|]; [|discriminate].
  cbn [final].
  pose proof (init_state false None false st2) as Hinit.
  destruct (ArgumentParser.init false None false st2) as [ap st3|] eqn:Hap;
    cbn [final] in Hinit; subst; [|discriminate].
  destruct (ArgumentParser.parse_known_args ap st2) as [[args0 rest] st3|]
    eqn:Hparse; [|discriminate].
  unfold getattr. destruct (args0 !! "command") as [command|] eqn:Hc; [|discriminate].
  unfold mret, M_ret. intros [= <- <-].
  exists ap, args0, rest. split; [reflexivity|]. split; [exact Hparse|].
  destruct (Py.eq_str command "lint") eqn:Heq.
  - split.
    + intros k Hk. apply lookup_insert_ne. congruence.
    + intros Hne. exfalso. apply Hne. f_equal.
      destruct command; try discriminate. cbn in Heq.
      apply String.eqb_eq in Heq. congruence.
  - auto.
Qed.

Lemma bootstrap_only_lint_witness :
  let st := startup ["renpy"; "game"; "run"; "--lint"] ∅ ∅ in
  let args := <["lint" := Py.Bool true]>
                (<["basedir" := Py.Str "game"]> first_pass_defaults) in
  bootstrap st = Done args st
  /\ exists ap rest, ArgumentParser.parse_known_args ap st = Done (args, rest) st.
Proof.
  intros st args.
  assert (Hboot : bootstrap st = Done args st) by evaluate.
  split; [exact Hboot|].
  destruct (bootstrap_only_lint st st args Hboot)
    as (ap & args0 & rest & _ & Hparse & Hk & Hsame).
  assert (Hst : final (sanitize st) = st) by evaluate.
  rewrite Hst in Hparse.
  assert (Hcommand : args !! "command" = Some (Py.Str "run"))
    by (vm_compute; reflexivity).
  rewrite Hk in Hcommand by discriminate.
  rewrite <- Hsame in Hparse by (rewrite Hcommand; discriminate).
  exists ap, rest. exact Hparse.
Defined.

(** ** The handlers of the built-in commands *)

Lemma takes_no_arguments_state description st :
  final (takes_no_arguments description st) = st.
Proof.
  unfold takes_no_arguments. rewrite final_bind.
  pose proof (init_state true description true st) as Hinit.
  destruct (ArgumentParser.init true description true st) as [ap st1|e st1];
    cbn [final] in Hinit; subst st1; [|reflexivity].
  rewrite final_bind.
  pose proof (parse_args_state ap st) as Hparse.
  destruct (ArgumentParser.parse_args ap st) as [args st1|e st1];
    cbn [final] in Hparse; subst st1; reflexivity.
Qed.

Lemma takes_no_arguments_cases description st :
  takes_no_arguments description st = Done tt st
  \/ exists e, takes_no_arguments description st = Raised e st.
Proof.
  pose proof (takes_no_arguments_state description st) as H.
  destruct (takes_no_arguments description st) as [[] st1|e st1];
    cbn [final] in H; subst st1; eauto.
Qed.

(** X16.  [compile] and [quit] change no global: each either returns
    [False], which ends startup, or fails as the strict parse failed, in
    the state it was called in.  The recompilation itself is not their
    doing. *)
Theorem compile_quit_inert (st : state) :
  (compile st = Done false st \/ exists e, compile st = Raised e st)
  /\ (quit st = Done false st \/ exists e, quit st = Raised e st).
Proof.
  unfold compile, quit. cbv [mbind M_bind mret M_ret].
  destruct (takes_no_arguments_cases (Some "Recompiles the game script.") st)
    as [->|[e ->]]; split; eauto.
Qed.

(** X17.  [rmpersistent] unlinks the persistent data, and turns saving it
    off, on exactly the command lines [compile] accepts, and only after
    the strict parse has succeeded: where [compile] fails, [rmpersistent]
    fails with the same exception and has deleted nothing. *)
Theorem rmpersistent_after_parse (st : state) :
  (compile st = Done false st
   /\ rmpersistent st = Done false (set_persistent true false st))
  \/ (exists e, compile st = Raised e st /\ rmpersistent st = Raised e st).
Proof.
  unfold compile, rmpersistent. cbv [mbind M_bind mret M_ret modify].
  change (takes_no_arguments (Some "Deletes the persistent data.") st)
    with (takes_no_arguments (Some "Recompiles the game script.") st).
  destruct (takes_no_arguments_cases (Some "Recompiles the game script.") st)
    as [->|[e ->]]; [left; split; reflexivity|right; exists e; split; reflexivity].
Qed.

(** ** The run handler *)

Lemma preserves_state {A B} (f : state -> B) (m : M A) :
  (forall st, final (m st) = st) -> preserves f m.
Proof. intros H st. rewrite H. reflexivity. Qed.

Lemma preserves_ret {A B} (f : state -> B) (a : A) : preserves f (mret a).
Proof. intros st. reflexivity. Qed.

Lemma preserves_getattr {B} (f : state -> B) args name :
  preserves f (getattr args name).
Proof. apply preserves_state. intros st. unfold getattr. destruct (_ !! _); reflexivity. Qed.

Lemma preserves_modify {B} (f : state -> B) (g : state -> state) :
  (forall st, f (g st) = f st) -> preserves f (modify g).
Proof. intros H st. apply H. Qed.

Lemma preserves_bind {A B C} (f : state -> C) (m : M A) (k : A -> M B) :
  preserves f m -> (forall a, preserves f (k a)) -> preserves f (m ≫= k).
Proof.
  intros Hm Hk st. specialize (Hm st). rewrite final_bind.
  destruct (m st) as [a st1|e st1]; cbn [final] in Hm.
  - rewrite Hk. exact Hm.
  - exact Hm.
Qed.

Lemma preserves_flag {B} (f : state -> B) (b : bool) (g : state -> state) :
  (forall st, f (g st) = f st) ->
  preserves f (if b then modify g else mret tt).
Proof. intros H. destruct b; [apply preserves_modify, H|apply preserves_ret]. Qed.

(** Whatever the five setters [run] uses leave alone, [run] leaves
    alone. *)
Lemma run_preserves {B} (f : state -> B) :
  (forall v st, f (set_game_args v st) = f st) ->
  (forall v st, f (set_session v st) = f st) ->
  (forall v st, f (set_warp_spec v st) = f st) ->
  (forall v st, f (set_config_profile v st) = f st) ->
  (forall v st, f (set_config_debug_image_cache v st) = f st) ->
  preserves f run.
Proof.
  intros Hargs Hsession Hwarp Hprofile Hcache. unfold run.
  apply preserves_bind; [apply preserves_state, init_state|intros ap].
  apply preserves_bind; [apply preserves_state, parse_args_state|intros args].
  apply preserves_bind; [apply preserves_modify, Hargs|intros _].
  apply preserves_bind; [apply preserves_getattr|intros warp].
  apply preserves_bind; [apply preserves_state; reflexivity|intros session].
  apply preserves_bind.
  { destruct (_ && _); [|apply preserves_ret].
    apply preserves_bind; [apply preserves_modify, Hsession|intros _].
    apply preserves_bind; [apply preserves_state; reflexivity|intros history].
    apply preserves_modify, Hwarp. }
  intros _.
  apply preserves_bind; [apply preserves_getattr|intros pd].
  apply preserves_bind; [apply preserves_flag, Hprofile|intros _].
  apply preserves_bind; [apply preserves_getattr|intros dic].
  apply preserves_bind; [apply preserves_flag, Hcache|intros _].
  apply preserves_ret.
Qed.

(** X18.  Whether it returns or fails, [run] leaves [sys.argv],
    [os.environ], the two command tables, the Epic side channel and the
    persistent data as they were. *)
Theorem run_frame (st : state) :
  let st' := final (run st) in
  argv st' = argv st
  /\ environ st' = environ st
  /\ commands st' = commands st
  /\ display st' = display st
  /\ epic_arguments st' = epic_arguments st
  /\ persistent_unlinked st' = persistent_unlinked st
  /\ should_save_persistent st' = should_save_persistent st.
Proof.
  cbv zeta.
  repeat split;
    match goal with
    | |- ?f (final (run st)) = _ => apply (run_preserves f); reflexivity
    end.
Qed.

(** What a returning [run] has gone through. *)
Lemma run_inv (st st' : state) (b : bool) :
  run st = Done b st' ->
  b = true
  /\ exists ap args warp pd dic,
       run_parser st = Done ap st
       /\ ArgumentParser.parse_args ap st = Done args st
       /\ args !! "warp" = Some warp
       /\ args !! "profile_display" = Some pd
       /\ args !! "debug_image_cache" = Some dic
       /\ st' =
          let st1 := set_game_args args st in
          let st2 :=
            if Py.truthy warp && negb (warped st)
            then set_warp_spec (warp :: warp_spec st)
                   (set_session (<["_warped" := Py.Bool true]> (session st)) st1)
            else st1 in
          let st3 := if Py.truthy pd then set_config_profile true st2 else st2 in
          if Py.truthy dic then set_config_debug_image_cache true st3 else st3.
Proof.
  unfold run, run_parser. cbv [mbind M_bind].
  pose proof (init_state true (Some "Runs the current project normally.") false st)
    as Hinit.
  destruct (ArgumentParser.init true _ false st) as [ap0 st0|];
    cbn [final] in Hinit; subst; [|discriminate].
  cbv [mret M_ret].
  set (ap := ArgumentParser.add_argument ["--debug-image-cache"] _ _).
  pose proof (parse_args_state ap st) as Hparse.
  destruct (ArgumentParser.parse_args ap st) as [args st0|] eqn:Hargs;
    cbn [final] in Hparse; subst; [|discriminate].
  run_monad.
  destruct (args !! "warp") as [warp|] eqn:Hwarp; [|discriminate].
  cbn [session set_game_args set_session warp_spec]. fold (warped st).
  destruct (args !! "profile_display") as [pd|] eqn:Hpd;
    [|destruct (_ && _); discriminate].
  destruct (args !! "debug_image_cache") as [dic|] eqn:Hdic;
    [|destruct (_ && _); destruct (Py.truthy pd); discriminate].
  intros Hrun. split.
  - destruct (_ && _), (Py.truthy pd), (Py.truthy dic); congruence.
  - exists ap, args, warp, pd, dic. repeat (split; [reflexivity || assumption|]).
    destruct (_ && _), (Py.truthy pd), (Py.truthy dic);
      injection Hrun as _ <-; reflexivity.
Qed.

(** X19.  A returning [run] returns [True] and has published in
    [renpy.game.args] exactly what the strict parse of the command line
    returned for the second-pass parser extended with [--profile-display]
    and [--debug-image-cache]: no string of the command line was left
    unrecognized. *)
Theorem run_publishes_args (st st' : state) (b : bool) :
  run st = Done b st' ->
  b = true
  /\ exists ap rest,
       run_parser st = Done ap st
       /\ ArgumentParser.parse_args ap st = Done (game_args st') st
       /\ ArgumentParser.parse_known_args ap st = Done (game_args st', rest) st
       /\ rest = [].
Proof.
  intros Hrun. apply run_inv in Hrun
    as (-> & ap & args & warp & pd & dic & Hap & Hargs & _ & _ & _ & ->).
  split; [reflexivity|].
  assert (Hgame : forall st2,
             game_args st2 = args ->
             game_args (if Py.truthy dic
                        then set_config_debug_image_cache true
                               (if Py.truthy pd then set_config_profile true st2 else st2)
                        else if Py.truthy pd then set_config_profile true st2 else st2)
             = args).
  { intros st2 H2. destruct (Py.truthy dic), (Py.truthy pd); exact H2. }
  cbv zeta. rewrite Hgame by (destruct (_ && _); reflexivity).
  exists ap. revert Hargs. unfold ArgumentParser.parse_args. cbv [mbind M_bind].
  pose proof (parse_known_args_state ap st) as Hstate.
  destruct (ArgumentParser.parse_known_args ap st) as [[args0 [|x rest]] st1|];
    cbn [final] in Hstate; subst; try discriminate.
  intros [= <-]. exists []. repeat split; try reflexivity. exact Hap.
Qed.

Lemma run_publishes_args_witness :
  let st := set_game_args (<["command" := Py.Str "run"]> ∅)
              (startup ["renpy"; "game"; "run"; "--warp"; "script.rpy:10"] ∅ ∅) in
  let st' := final (run st) in
  run st = Done true st'
  /\ exists ap rest,
       run_parser st = Done ap st
       /\ ArgumentParser.parse_args ap st = Done (game_args st') st
       /\ ArgumentParser.parse_known_args ap st = Done (game_args st', rest) st
       /\ rest = [].
Proof.
  intros st st'.
  assert (Hrun : run st = Done true st') by evaluate.
  split; [exact Hrun|]. apply (run_publishes_args st st' true Hrun).
Defined.

(** X20.  What a returning [run] does about the warp: when [--warp] came
    with a true value and the session is not yet marked [_warped], the
    value is assigned to [renpy.warp.warp_spec] and the session is marked;
    in every other case both are left alone, so an empty [--warp] value
    does not use up the marker. *)
Theorem run_warp (st st' : state) (b : bool) :
  run st = Done b st' ->
  exists warp,
    game_args st' !! "warp" = Some warp
    /\ if Py.truthy warp && negb (warped st)
       then warp_spec st' = warp :: warp_spec st
            /\ session st' = <["_warped" := Py.Bool true]> (session st)
       else warp_spec st' = warp_spec st /\ session st' = session st.
Proof.
  intros Hrun. apply run_inv in Hrun
    as (_ & ap & args & warp & pd & dic & _ & _ & Hwarp & _ & _ & ->).
  exists warp. cbv zeta.
  destruct (Py.truthy warp && negb (warped st)), (Py.truthy pd), (Py.truthy dic);
    cbn; auto.
Qed.

Lemma run_warp_witness :
  let st := set_game_args (<["command" := Py.Str "run"]> ∅)
              (startup ["renpy"; "game"; "run"; "--warp"; "script.rpy:10"] ∅ ∅) in
  let st' := final (run st) in
  run st = Done true st'
  /\ exists warp,
       game_args st' !! "warp" = Some warp
       /\ if Py.truthy warp && negb (warped st)
          then warp_spec st' = warp :: warp_spec st
               /\ session st' = <["_warped" := Py.Bool true]> (session st)
          else warp_spec st' = warp_spec st /\ session st' = session st.
Proof.
  intros st st'.
  assert (Hrun : run st = Done true st') by evaluate.
  split; [exact Hrun|]. apply (run_warp st st' true Hrun).
Defined.

(** X21.  [run] only ever turns the two configuration switches on:
    after a returning call each is on if it was on before or its option
    was given, and no call, returning or failing, turns off a switch that
    was on. *)
Theorem run_config_flags (st : state) :
  (forall b st',
      run st = Done b st' ->
      exists pd dic,
        game_args st' !! "profile_display" = Some pd
        /\ game_args st' !! "debug_image_cache" = Some dic
        /\ config_profile st' = config_profile st || Py.truthy pd
        /\ config_debug_image_cache st'
           = config_debug_image_cache st || Py.truthy dic)
  /\ (config_profile st = true -> config_profile (final (run st)) = true)
  /\ (config_debug_image_cache st = true ->
      config_debug_image_cache (final (run st)) = true).
Proof.
  split.
  { intros b st' Hrun. apply run_inv in Hrun
      as (_ & ap & args & warp & pd & dic & _ & _ & _ & Hpd & Hdic & ->).
    exists pd, dic. cbv zeta.
    destruct (Py.truthy warp && negb (warped st)), (Py.truthy pd), (Py.truthy dic);
      cbn; rewrite ?orb_true_r, ?orb_false_r; auto. }
  unfold run. run_monad.
  pose proof (init_state true (Some "Runs the current project normally.") false st)
    as Hinit.
  destruct (ArgumentParser.init true _ false st) as [ap0 st0|];
    cbn [final] in Hinit; subst; [|split; intros Hon; exact Hon].
  match goal with
  | |- context [ArgumentParser.parse_args ?ap st] =>
      pose proof (parse_args_state ap st) as Hparse;
      destruct (ArgumentParser.parse_args ap st) as [args st0|]
  end; cbn [final] in Hparse; subst; [|split; intros Hon; exact Hon].
  destruct (args !! "warp") as [warp|]; [|split; intros Hon; exact Hon].
  cbn [session set_game_args set_session warp_spec].
  destruct (Py.truthy warp && negb _);
    (destruct (args !! "profile_display") as [pd|];
     [|split; intros Hon; exact Hon]);
    destruct (Py.truthy pd);
    (destruct (args !! "debug_image_cache") as [dic|];
     [|split; intros Hon; try exact Hon; reflexivity]);
    destruct (Py.truthy dic); split; intros Hon; try exact Hon; reflexivity.
Qed.

Lemma run_config_flags_witness :
  let st := set_game_args (<["command" := Py.Str "run"]> ∅)
              (startup ["renpy"; "game"; "run"; "--profile-display"] ∅ ∅) in
  let st' := final (run st) in
  run st = Done true st'
  /\ exists pd dic,
       game_args st' !! "profile_display" = Some pd
       /\ game_args st' !! "debug_image_cache" = Some dic
       /\ config_profile st' = config_profile st || Py.truthy pd
       /\ config_debug_image_cache st'
          = config_debug_image_cache st || Py.truthy dic.
Proof.
  intros st st'.
  assert (Hrun : run st = Done true st') by evaluate.
  split; [exact Hrun|]. apply (proj1 (run_config_flags st) true st' Hrun).
Defined.

(** ** Before the first pass has been stored *)

(** X22.  The second pass reads the command from [renpy.game.args]: as
    long as that has no [command] attribute, building a second-pass
    parser fails, and so does every handler that builds one, before it
    has looked at the command line or changed any global.  The failure
    is the [AttributeError] of the missing command when [sys.argv] holds
    a program name, and the [IndexError] of the inherited constructor,
    which comes first, when [sys.argv] is empty.  [post_init] reads the
    command before it builds any parser and fails with [AttributeError]
    either way. *)
Theorem second_pass_needs_command (st : state) :
  game_args st !! "command" = None ->
  let e := match argv st with
           | [] => Py.IndexError
           | _ :: _ => Py.AttributeError "command"
           end in
  (forall description require_command,
      ArgumentParser.init true description require_command st = Raised e st)
  /\ (forall description, takes_no_arguments description st = Raised e st)
  /\ run st = Raised e st
  /\ compile st = Raised e st
  /\ quit st = Raised e st
  /\ rmpersistent st = Raised e st
  /\ (forall call, post_init call st = Raised (Py.AttributeError "command") st).
Proof.
  intros Hnone e.
  assert (Hinit : forall description require_command,
             ArgumentParser.init true description require_command st = Raised e st).
  { intros description require_command. unfold ArgumentParser.init, e. run_monad.
    destruct (argv st); [reflexivity|]. rewrite Hnone. reflexivity. }
  assert (Htakes : forall description,
             takes_no_arguments description st = Raised e st).
  { intros description. unfold takes_no_arguments. cbv [mbind M_bind].
    rewrite Hinit. reflexivity. }
  split; [exact Hinit|]. split; [exact Htakes|].
  split; [unfold run; cbv [mbind M_bind]; rewrite Hinit; reflexivity|].
  split; [unfold compile; cbv [mbind M_bind]; rewrite Htakes; reflexivity|].
  split; [unfold quit; cbv [mbind M_bind]; rewrite Htakes; reflexivity|].
  split; [unfold rmpersistent; cbv [mbind M_bind]; rewrite Htakes; reflexivity|].
  intros call. unfold post_init, effective_command. run_monad.
  rewrite Hnone. reflexivity.
Qed.

Lemma second_pass_needs_command_witness :
  let st := startup ["renpy"; "game"; "compile"] ∅ ∅ in
  game_args st !! "command" = None
  /\ run st = Raised (Py.AttributeError "command") st
  /\ rmpersistent st = Raised (Py.AttributeError "command") st.
Proof.
  intros st.
  assert (Hnone : game_args st !! "command" = None) by reflexivity.
  destruct (second_pass_needs_command st Hnone) as (_ & _ & Hrun & _ & _ & Hrm & _).
  auto.
Defined.

(** ** Attributes are never removed *)

Lemma extends_refl ns : extends ns ns.
Proof. intros name H. exact H. Qed.

Lemma extends_trans ns1 ns2 ns3 : extends ns1 ns2 -> extends ns2 ns3 -> extends ns1 ns3.
Proof. intros H1 H2 name H. apply H2, H1, H. Qed.

Lemma extends_insert (name : string) (v : Py.value) (ns : Namespace) :
  extends ns (<[name := v]> ns).
Proof.
  intros k H. destruct (decide (name = k)) as [->|Hne].
  - rewrite lookup_insert_eq. eauto.
  - rewrite lookup_insert_ne by exact Hne. exact H.
Qed.

Lemma call_extends a ns v ns' :
  argparse.call a ns v = Py.Return ns' -> extends ns ns'.
Proof.
  unfold argparse.call. destruct (argparse.cls a); intros [= <-];
    apply extends_insert.
Qed.

Lemma take_action_extends a strings ns ns' :
  argparse.take_action a strings ns = Py.Return ns' -> extends ns ns'.
Proof.
  unfold argparse.take_action.
  destruct (argparse.get_values a strings) as [[v|]|]; cbn.
  - apply call_extends.
  - intros [= <-]. apply extends_refl.
  - discriminate.
Qed.

Lemma take_actions_extends tuples ns ns' :
  argparse.take_actions tuples ns = Py.Return ns' -> extends ns ns'.
Proof.
  revert ns. induction tuples as [|[a strings] r IH]; intros ns; cbn.
  - intros [= <-]. apply extends_refl.
  - destruct (argparse.take_action a strings ns) as [ns1|] eqn:H1; cbn; [|discriminate].
    intros H. eapply extends_trans; [eapply take_action_extends, H1|apply IH, H].
Qed.

Lemma take_positionals_extends matched strings ns ns' :
  argparse.take_positionals matched strings ns = Py.Return ns' -> extends ns ns'.
Proof.
  revert strings ns. induction matched as [|[a n] r IH]; intros strings ns; cbn.
  - intros [= <-]. apply extends_refl.
  - destruct (argparse.take_action a _ ns) as [ns1|] eqn:H1; cbn; [|discriminate].
    intros H. eapply extends_trans; [eapply take_action_extends, H1|eapply IH, H].
Qed.

Lemma consume_positionals_extends positionals toks ns ns' consumed unseen :
  argparse.consume_positionals positionals toks ns = Py.Return (ns', consumed, unseen) ->
  extends ns ns'.
Proof.
  unfold argparse.consume_positionals.
  destruct (argparse.take_positionals _ _ ns) as [ns1|] eqn:H1; cbn; [|discriminate].
  intros [= <- _ _]. eapply take_positionals_extends, H1.
Qed.

Lemma consume_optional_extends table s t following ns ex ns' ex' taken :
  argparse.consume_optional table s t following ns ex = Py.Return (ns', ex', taken) ->
  extends ns ns'.
Proof.
  unfold argparse.consume_optional. destruct t as [[[a|] option_string] explicit_arg].
  - match goal with
    | |- context [mbind _ ?m] => destruct m as [[tuples n]|]
    end; cbn; [|discriminate].
    destruct (argparse.take_actions tuples ns) as [ns1|] eqn:H1; cbn; [|discriminate].
    intros [= <- _ _]. eapply take_actions_extends, H1.
  - intros [= <- _ _]. apply extends_refl.
Qed.

Lemma step_optional_extends table toks positionals ns ex st' :
  argparse.step_optional table toks positionals ns ex = argparse.Next st' ->
  extends ns (argparse.namespace st').
Proof.
  unfold argparse.step_optional.
  destruct toks as [|[s [| |t]] following]; try discriminate.
  destruct (argparse.consume_optional table s t following ns ex)
    as [[[ns1 ex1] taken]|] eqn:H1; [|discriminate].
  intros [= <-]. cbn. eapply consume_optional_extends, H1.
Qed.

Lemma step_extends table st st' :
  argparse.step table st = argparse.Next st' ->
  extends (argparse.namespace st) (argparse.namespace st').
Proof.
  unfold argparse.step.
  destruct (negb _); [discriminate|].
  destruct (argparse.remaining st) as [|tok r]; [discriminate|].
  destruct (argparse.is_option tok); [apply step_optional_extends|].
  destruct (argparse.consume_positionals _ _ _) as [[[ns1 consumed] unseen]|] eqn:H1;
    [|discriminate].
  apply consume_positionals_extends in H1.
  destruct (Nat.ltb 0 consumed).
  - intros [= <-]. exact H1.
  - destruct (argparse.until_option (tok :: r)) as [before rest].
    intros H. eapply extends_trans; [exact H1|eapply step_optional_extends, H].
Qed.

Lemma parse_loop_extends table st :
  forall st', argparse.parse_loop table st = Py.Return st' ->
  extends (argparse.namespace st) (argparse.namespace st').
Proof.
  funelim (argparse.parse_loop table st); intros st1.
  - intros [= <-]. apply extends_refl.
  - intros Hloop.
    match goal with
    | E : argparse.step _ _ = argparse.Next _, IH : forall _, _ -> extends _ _ |- _ =>
        eapply extends_trans; [exact (step_extends _ _ _ E)|exact (IH st1 Hloop)]
    end.
  - discriminate.
Qed.

(** The library's parse keeps every default it started from. *)
Lemma library_parse_extends actions args ns rest :
  argparse.parse_known_args actions args = Py.Return (ns, rest) ->
  extends (argparse.add_defaults actions ∅) ns.
Proof.
  unfold argparse.parse_known_args.
  destruct (argparse.classify _ args) as [toks|]; cbn; [|discriminate].
  destruct (argparse.parse_loop _ _) as [st1|] eqn:Hloop; cbn; [|discriminate].
  apply parse_loop_extends in Hloop. cbn in Hloop.
  destruct (argparse.consume_positionals _ _ _) as [[[ns1 consumed] unseen]|] eqn:H1;
    cbn; [|discriminate].
  apply consume_positionals_extends in H1.
  destruct (List.filter _ unseen); [|discriminate].
  intros [= <- _]. eapply extends_trans; [exact Hloop|exact H1].
Qed.

Lemma add_defaults_extends actions ns :
  extends ns (argparse.add_defaults actions ns).
Proof.
  unfold argparse.add_defaults. revert ns.
  induction actions as [|a r IH]; intros ns; cbn; [apply extends_refl|].
  eapply extends_trans; [|apply IH].
  destruct (ns !! argparse.dest a), (argparse.default a);
    try apply extends_refl. apply extends_insert.
Qed.

Lemma add_defaults_declares actions ns a :
  In a actions -> is_Some (argparse.default a) ->
  is_Some (argparse.add_defaults actions ns !! argparse.dest a).
Proof.
  unfold argparse.add_defaults. revert ns.
  induction actions as [|x r IH]; intros ns Hin Hdefault; [destruct Hin|].
  destruct Hin as [->|Hin]; cbn.
  - apply (add_defaults_extends r). destruct Hdefault as [v Hv].
    destruct (ns !! argparse.dest a) eqn:Hns; [rewrite Hns; eauto|].
    rewrite Hv, lookup_insert_eq. eauto.
  - apply IH; assumption.
Qed.

Lemma extends_if (b : bool) (name : string) (v : Py.value) (ns : Namespace) :
  extends ns (if b then <[name := v]> ns else ns).
Proof. destruct b; [apply extends_insert|apply extends_refl]. Qed.

Lemma parse_known_args_extends self st args rest st' :
  ArgumentParser.parse_known_args self st = Done (args, rest) st' ->
  extends (argparse.add_defaults (ArgumentParser.actions self) ∅) args.
Proof.
  intros H. apply parse_known_args_inv in H
    as (_ & args0 & command & forced & Hlib & _ & _ & ->).
  apply library_parse_extends in Hlib. cbv zeta.
  intros name Hname. apply Hlib in Hname.
  apply extends_if, extends_if, extends_if, Hname.
Qed.

Lemma parse_args_extends self st args st' :
  ArgumentParser.parse_args self st = Done args st' ->
  extends (argparse.add_defaults (ArgumentParser.actions self) ∅) args.
Proof.
  unfold ArgumentParser.parse_args. cbv [mbind M_bind].
  destruct (ArgumentParser.parse_known_args self st) as [[args0 [|x rest]] st1|] eqn:H;
    try discriminate.
  intros [= <- _]. eapply parse_known_args_extends, H.
Qed.

(** X23.  Every attribute a parser declares with a storing action
    ([store] or [store_true], whose default is never [SUPPRESS]) is an
    attribute of the namespace a returning parse gives, whether or not
    the command line mentions it: a command that adds its own options
    and parses can read each of them. *)
Theorem parse_declares (self : ArgumentParser.t) (st st' : state)
    (args : Namespace) (rest : list string) (a : argparse.Action) :
  ArgumentParser.parse_known_args self st = Done (args, rest) st' ->
  In a (ArgumentParser.actions self) ->
  is_Some (argparse.default a) ->
  is_Some (args !! argparse.dest a).
Proof.
  intros Hparse Hin Hdefault.
  apply (parse_known_args_extends _ _ _ _ _ Hparse).
  apply add_defaults_declares; assumption.
Qed.

Lemma parse_declares_witness :
  let st := startup ["renpy"; "game"; "stats"] ∅ ∅ in
  let count := argparse.make_action ["--count"]
                 [argparse.kw_dest "count"; argparse.kw_type argparse.to_int;
                  argparse.kw_default (Py.Int 1)] in
  let args := <["count" := Py.Int 1]>
                (<["command" := Py.Str "stats"]>
                   (<["basedir" := Py.Str "game"]> first_pass_defaults)) in
  exists ap,
    ArgumentParser.init false None false st = Done ap st
    /\ ArgumentParser.parse_known_args
         (ArgumentParser.add_argument ["--count"]
            [argparse.kw_dest "count"; argparse.kw_type argparse.to_int;
             argparse.kw_default (Py.Int 1)] ap) st
       = Done (args, []) st
    /\ is_Some (args !! argparse.dest count).
Proof.
  intros st count args. eexists. split; [reflexivity|].
  match goal with
  | |- ?parse = _ /\ _ => assert (Hparse : parse = Done (args, []) st) by evaluate
  end.
  split; [exact Hparse|].
  apply (parse_declares _ st st args [] count Hparse).
  - vm_compute. do 15 right. left. reflexivity.
  - vm_compute. eauto.
Defined.

(** X24.  The namespace [bootstrap] returns has every attribute the
    first-pass parser declares, from [basedir] and [command] to the three
    JSON dump switches, whatever the command line was: a caller can read
    each of them without an [AttributeError]. *)
Theorem bootstrap_declares (st st' : state) (args : Namespace) :
  bootstrap st = Done args st' ->
  extends first_pass_defaults args.
Proof.
  unfold bootstrap. cbv [mbind M_bind].
  destruct (clean_epic_arguments st) as [[] st1|]; [|discriminate].
  destruct (clean_macos_arguments st1) as [[] st2|]; [|discriminate].
  destruct (ArgumentParser.init false None false st2) as [ap st3|] eqn:Hap;
    [|discriminate].
  assert (Hdefaults :
            argparse.add_defaults (ArgumentParser.actions ap) ∅ = first_pass_defaults).
  { revert Hap. unfold ArgumentParser.init. run_monad.
    destruct (argv st2); [discriminate|]. intros [= <- _]. evaluate. }
  destruct (ArgumentParser.parse_known_args ap st3) as [[args0 rest] st4|] eqn:Hparse;
    [|discriminate].
  apply parse_known_args_extends in Hparse. rewrite Hdefaults in Hparse.
  unfold getattr. destruct (args0 !! "command") as [command|]; [|discriminate].
  intros [= <- _]. intros name Hname. apply extends_if, Hparse, Hname.
Qed.

Lemma bootstrap_declares_witness :
  let st := startup ["renpy"; "game"; "lint"; "--frobnicate"] ∅ ∅ in
  let args := <["lint" := Py.Bool true]>
                (<["command" := Py.Str "lint"]>
                   (<["basedir" := Py.Str "game"]> first_pass_defaults)) in
  bootstrap st = Done args st /\ extends first_pass_defaults args.
Proof.
  intros st args.
  assert (Hboot : bootstrap st = Done args st) by evaluate.
  split; [exact Hboot|]. apply (bootstrap_declares st st args Hboot).
Defined.

(** The parser of [run] declares the three attributes [run] reads. *)
Lemma run_parser_declares st ap st' :
  run_parser st = Done ap st' ->
  Forall (fun name =>
            is_Some (argparse.add_defaults (ArgumentParser.actions ap) ∅ !! name))
    ["warp"; "profile_display"; "debug_image_cache"].
Proof.
  unfold run_parser, ArgumentParser.init. run_monad.
  destruct (argv st); [discriminate|].
  destruct (game_args st !! "command") as [command|]; [|discriminate].
  intros [= <- _]. repeat constructor; vm_compute; eauto.
Qed.

(** X25.  A call of [run] that fails has changed nothing.  It failed
    while the parser was built, with the [IndexError] of an empty
    [sys.argv] or, that passed, with the [AttributeError] of a
    [renpy.game.args] without command; or the strict parse failed.  In
    each case nothing had been published yet: once the parse has
    returned, no attribute [run] reads can be missing. *)
Theorem run_fails_clean (st st' : state) (e : Py.exn) :
  run st = Raised e st' ->
  st' = st
  /\ ((argv st = [] /\ e = Py.IndexError)
      \/ (argv st <> [] /\ game_args st !! "command" = None
          /\ e = Py.AttributeError "command")
      \/ exists ap,
           run_parser st = Done ap st
           /\ ArgumentParser.parse_args ap st = Raised e st).
Proof.
  unfold run. cbv [mbind M_bind].
  destruct (ArgumentParser.init true (Some "Runs the current project normally.")
              false st) as [ap0 st1|e1 st1] eqn:Hinit.
  - pose proof (init_state true (Some "Runs the current project normally.") false st)
      as Hstate.
    rewrite Hinit in Hstate. cbn [final] in Hstate. subst st1.
    set (ap := ArgumentParser.add_argument ["--debug-image-cache"] _ _).
    assert (Hap : run_parser st = Done ap st).
    { unfold run_parser. cbv [mbind M_bind]. rewrite Hinit. reflexivity. }
    pose proof (parse_args_state ap st) as Hstate.
    destruct (ArgumentParser.parse_args ap st) as [args st1|e1 st1] eqn:Hargs;
      cbn [final] in Hstate; subst st1.
    + apply parse_args_extends in Hargs.
      pose proof (run_parser_declares _ _ _ Hap) as Hdeclared.
      rewrite !Forall_cons in Hdeclared.
      destruct Hdeclared as (Hwarp & Hpd & Hdic & _).
      apply Hargs in Hwarp as [warp Hwarp].
      apply Hargs in Hpd as [pd Hpd].
      apply Hargs in Hdic as [dic Hdic].
      run_monad. rewrite Hwarp.
      cbn [session set_game_args set_session warp_spec].
      destruct (Py.truthy warp && negb _); rewrite Hpd; destruct (Py.truthy pd);
        rewrite Hdic; destruct (Py.truthy dic); discriminate.
    + intros [= <- <-]. split; [reflexivity|]. right. right. exists ap. auto.
  - intros [= <- <-]. revert Hinit.
    unfold ArgumentParser.init. run_monad.
    destruct (argv st) as [|program_name tokens].
    + intros [= <- <-]. auto.
    + destruct (game_args st !! "command"); [discriminate|].
      intros [= <- <-]. split; [reflexivity|]. right. left.
      split; [discriminate|]. split; reflexivity.
Qed.

Lemma run_fails_clean_witness :
  let st := set_game_args (<["command" := Py.Str "run"]> ∅)
              (startup ["renpy"; "game"; "run"; "--warp"] ∅ ∅) in
  let e := Py.SystemExit 2 "argument --warp: expected one argument" in
  run st = Raised e st
  /\ exists ap,
       run_parser st = Done ap st
       /\ ArgumentParser.parse_args ap st = Raised e st.
Proof.
  intros st e.
  assert (Hrun : run st = Raised e st) by evaluate.
  split; [exact Hrun|].
  destruct (run_fails_clean st st e Hrun) as (_ & [[_ He]|[(_ & _ & He)|Hparse]]);
    [discriminate He|discriminate He|exact Hparse].
Defined.

(** ** Commands that take no arguments *)

Lemma startswith_dash c r : Py.startswith (String c r) "-" = Ascii.eqb c "-".
Proof.
  unfold Py.startswith. cbn [String.prefix].
  destruct (ascii_dec "-" c) as [<-|Hne]; [destruct r; reflexivity|].
  symmetry. apply Ascii.eqb_neq. congruence.
Qed.

Lemma positional_not_separator s :
  Py.startswith s "-" = false -> String.eqb s "--" = false.
Proof.
  destruct s as [|c r]; [reflexivity|]. rewrite startswith_dash. intros H.
  cbn [String.eqb]. rewrite H. reflexivity.
Qed.

(** A string that does not start with a dash is an argument, never an
    option. *)
Lemma parse_optional_positional table s :
  Py.startswith s "-" = false -> argparse.parse_optional table s = Py.Return None.
Proof.
  destruct s as [|c r]; [reflexivity|]. rewrite startswith_dash. intros H.
  unfold argparse.parse_optional. rewrite H. reflexivity.
Qed.

Lemma classify_positionals table strings :
  Forall (fun s => Py.startswith s "-" = false) strings ->
  argparse.classify table strings = Py.Return (argparse.after_separator strings).
Proof.
  induction 1 as [|s r Hs Hr IH]; [reflexivity|].
  cbn [argparse.classify]. rewrite (positional_not_separator s Hs).
  rewrite (parse_optional_positional table s Hs). cbn. rewrite IH. reflexivity.
Qed.

Lemma no_option_after_separator strings :
  existsb argparse.is_option (argparse.after_separator strings) = false.
Proof. induction strings as [|s r IH]; [reflexivity|exact IH]. Qed.

Lemma parse_loop_exit table st :
  argparse.step table st = argparse.Exit -> argparse.parse_loop table st = Py.Return st.
Proof.
  funelim (argparse.parse_loop table st); intros Hstep; try reflexivity; congruence.
Qed.

Lemma texts_after_separator strings :
  argparse.texts (argparse.after_separator strings) = strings.
Proof. induction strings as [|s r IH]; [reflexivity|]. cbn. f_equal. exact IH. Qed.

Lemma match_two_positionals a1 a2 extra :
  argparse.nargs a1 = argparse.One -> argparse.option_strings a1 = [] ->
  argparse.nargs a2 = argparse.One -> argparse.option_strings a2 = [] ->
  argparse.match_arguments_partial [a1; a2]
    (argparse.A :: argparse.A :: argparse.pattern (argparse.after_separator extra))
  = [1; 1].
Proof.
  intros N1 O1 N2 O2. unfold argparse.match_arguments_partial.
  cbn [List.length argparse.match_arguments_partial_from take flat_map].
  unfold argparse.get_nargs_pattern. rewrite N1, O1, N2, O2.
  destruct extra as [|x r]; reflexivity.
Qed.

(** The library's parse for a second-pass parser that requires the
    command, on strings that are all arguments: the first two go to
    [basedir] and [command], the rest is left over. *)
Lemma library_parse_positionals description st ap st' basedir command extra :
  ArgumentParser.init true description true st = Done ap st' ->
  Forall (fun s => Py.startswith s "-" = false) (basedir :: command :: extra) ->
  argparse.parse_known_args (ArgumentParser.actions ap) (basedir :: command :: extra)
  = Py.Return
      (<["command" := Py.Str command]>
         (<["basedir" := Py.Str basedir]>
            (argparse.add_defaults (ArgumentParser.actions ap) ∅)),
       extra).
Proof.
  unfold ArgumentParser.init. cbv [mbind mret M_bind M_ret gets getattr raise].
  destruct (argv st); [discriminate|].
  destruct (game_args st !! "command") as [v|]; [|discriminate].
  intros [= <- _] Hall. cbn [ArgumentParser.actions].
  unfold argparse.parse_known_args.
  rewrite (classify_positionals _ _ Hall). cbn [mbind Py.result_bind].
  rewrite parse_loop_exit
    by (unfold argparse.step; cbn [argparse.remaining];
        rewrite no_option_after_separator; reflexivity).
  cbn [mbind Py.result_bind argparse.positionals argparse.remaining argparse.namespace
       argparse.extras].
  match goal with
  | |- context [argparse.get_positional_actions ?l] =>
      let pos := eval vm_compute in (argparse.get_positional_actions l) in
      change (argparse.get_positional_actions l) with pos
  end.
  inversion Hall as [|? ? Hb Hrest]; subst. inversion Hrest as [|? ? Hc Hextra]; subst.
  set (ns0 := argparse.add_defaults _ ∅).
  unfold argparse.consume_positionals. rewrite texts_after_separator.
  cbn [argparse.pattern argparse.after_separator map argparse.letter argparse.what].
  change (map argparse.letter (map (fun s => {| argparse.text := s; argparse.what := argparse.Argument |}) extra))
    with (argparse.pattern (argparse.after_separator extra)).
  rewrite match_two_positionals by reflexivity.
  cbn [zip zip_with argparse.take_positionals take drop firstn skipn].
  unfold argparse.take_action, argparse.get_values.
  cbn [argparse.remove_separator].
  rewrite (positional_not_separator _ Hb), (positional_not_separator _ Hc).
  cbn [argparse.nargs argparse.get_value argparse.type fmap Py.result_fmap mbind
       Py.result_bind argparse.call argparse.cls argparse.dest sum_list sum_list_with
       List.length List.filter argparse.required app Nat.add].
  change (take 0 extra) with (@nil string).
  cbn [argparse.remove_separator mbind Py.result_bind id Nat.add drop skipn
       List.filter argparse.required].
  f_equal. f_equal. rewrite drop_0. apply texts_after_separator.
Qed.

(** X26.  On a command line made of a base directory, a command and
    further strings, none of which starts with a dash,
    [takes_no_arguments] returns, with no global changed, exactly when
    there is no further string; otherwise it exits with status 2 and
    names the strings it does not recognize.  The description plays no
    part. *)
Theorem takes_no_arguments_positionals (description : option string) (st : state)
    (program_name basedir command : string) (extra : list string) :
  argv st = program_name :: basedir :: command :: extra ->
  Forall (fun s => Py.startswith s "-" = false) (basedir :: command :: extra) ->
  is_Some (game_args st !! "command") ->
  takes_no_arguments description st
  = match extra with
    | [] => Done tt st
    | _ => Raised (Py.SystemExit 2
                     ("unrecognized arguments: " +:+ String.concat " " extra)) st
    end.
Proof.
  intros Hargv Hall [v Hv].
  destruct (init_second_pass st description true v) as [ap Hap];
    [rewrite Hargv; discriminate|exact Hv|].
  pose proof (library_parse_positionals _ _ _ _ _ _ _ Hap Hall) as Hlib.
  unfold takes_no_arguments, ArgumentParser.parse_args,
    ArgumentParser.parse_known_args, ArgumentParser.error, argparse.error.
  cbv [mbind M_bind]. rewrite Hap. cbv [gets]. rewrite Hargv. cbn [tail].
  rewrite Hlib. cbv [lift mret M_ret getattr].
  set (ns := <["command" := Py.Str command]> _).
  assert (Hcommand :
            (if Py.truthy (Py.dict_get (session st) "_reload" (Py.Bool false))
             then <["compile" := Py.Bool false]> ns else ns) !! "command"
            = Some (Py.Str command)).
  { destruct (Py.truthy _); [rewrite lookup_insert_ne by discriminate|];
      apply lookup_insert_eq. }
  rewrite Hcommand. cbv [in_compile_commands mret M_ret raise].
  destruct extra; reflexivity.
Qed.

Lemma takes_no_arguments_positionals_witness :
  let st := set_game_args (<["command" := Py.Str "compile"]> ∅)
              (startup ["renpy"; "game"; "compile"; "now"] ∅ ∅) in
  takes_no_arguments (Some "Recompiles the game script.") st
  = Raised (Py.SystemExit 2 "unrecognized arguments: now") st.
Proof.
  intros st.
  apply (takes_no_arguments_positionals _ st "renpy" "game" "compile" ["now"]).
  - reflexivity.
  - repeat constructor.
  - exists (Py.Str "compile"). vm_compute. reflexivity.
Defined.
